(** * types-alya: the schema-driven generator of [parser_types.py]

    A shallow embedding of the pydantic models [ApiTypeInfo], [ApiProperty],
    [ApiMethod], [ApiObject] and [ApiScheme] and of their rendering methods,
    followed by the properties of the emitted text.

    Conventions of the embedding:
    - Python [str] is [string]; the names and kinds of the schema are ASCII,
      and [lower] and the class [A-Z] act on the ASCII letters;
    - a Python exception is the [Err] case of [result];
    - [print] appends a line to the standard output carried by [Gen];
    - a value of type [Optional[T]] is an [option T]; the field [default]
      of type [Optional[Any]] is a [pyval], absent being [PyNone]. *)

From Stdlib Require Import String Ascii List ZArith Bool Lia DecimalString.
Import ListNotations.
Open Scope string_scope.

Set Implicit Arguments.

(** ** Text helpers *)

Module Text.

Definition dq : string := String "034"%char EmptyString.
Definition nl : string := String "010"%char EmptyString.
(** the triple quote of a Python docstring *)
Definition tq : string := dq ++ dq ++ dq.

(** [sep.join(xs)] *)
Fixpoint join (sep : string) (xs : list string) : string :=
  match xs with
  | [] => EmptyString
  | [x] => x
  | x :: rest => x ++ sep ++ join sep rest
  end.

(** [''.join(xs)], used to lay a template out piece by piece *)
Definition cat (xs : list string) : string := String.concat EmptyString xs.

(** [s.endswith('_')] *)
Fixpoint endswith_underscore (s : string) : bool :=
  match s with
  | EmptyString => false
  | String c EmptyString => Ascii.eqb c "_"%char
  | String _ rest => endswith_underscore rest
  end.

(** [s[:-1]] *)
Fixpoint drop_last (s : string) : string :=
  match s with
  | EmptyString => EmptyString
  | String _ EmptyString => EmptyString
  | String c rest => String c (drop_last rest)
  end.

(** the character class [[A-Z]] *)
Definition is_upper (c : ascii) : bool :=
  let n := nat_of_ascii c in (65 <=? n)%nat && (n <=? 90)%nat.

Definition lower_char (c : ascii) : ascii :=
  if is_upper c then ascii_of_nat (nat_of_ascii c + 32) else c.

(** [s.lower()] *)
Fixpoint lower (s : string) : string :=
  match s with
  | EmptyString => EmptyString
  | String c rest => String (lower_char c) (lower rest)
  end.

(** [s.replace(a, b)] for a one-character [a] *)
Fixpoint replace_char (a : ascii) (b : string) (s : string) : string :=
  match s with
  | EmptyString => EmptyString
  | String c rest =>
      (if Ascii.eqb c a then b else String c EmptyString) ++ replace_char a b rest
  end.

(** [bool(s)] of a string *)
Definition nonempty (s : string) : bool :=
  match s with EmptyString => false | _ => true end.

End Text.
Import Text.

(** ** Python values held by [default: Optional[Any]]

    The code looks at a default only through its truth value ([or], [if],
    [not]) and its [str()] rendering inside an f-string.  Floats, lists and
    dicts are carried by exactly these two observations. *)

Inductive pyval : Type :=
| PyNone
| PyBool (b : bool)
| PyInt (z : Z)
| PyStr (s : string)
| PyOther (truth : bool) (rendering : string).

Definition truthy (v : pyval) : bool :=
  match v with
  | PyNone => false
  | PyBool b => b
  | PyInt z => negb (Z.eqb z 0)
  | PyStr s => nonempty s
  | PyOther t _ => t
  end.

Definition py_str (v : pyval) : string :=
  match v with
  | PyNone => "None"
  | PyBool true => "True"
  | PyBool false => "False"
  | PyInt z => NilZero.string_of_int (Z.to_int z)
  | PyStr s => s
  | PyOther _ r => r
  end.

(** [v or None] *)
Definition or_None (v : pyval) : pyval := if truthy v then v else PyNone.

(** ** Exceptions *)

Inductive exn : Type :=
| KeyError (key : string)
| ValueError (msg : string).

Inductive result (A : Type) : Type :=
| Ok (a : A)
| Err (e : exn).
Arguments Ok {A} a.
Arguments Err {A} e.

Definition rbind {A B} (r : result A) (k : A -> result B) : result B :=
  match r with
  | Ok a => k a
  | Err e => Err e
  end.

Notation "x <- r ;; k" := (rbind r (fun x => k))
  (at level 61, r at next level, right associativity).

(** a comprehension [[f(el) for el in xs]] whose body may raise: elements are
    evaluated from left to right and the first exception escapes *)
Definition mapM {A B} (f : A -> result B) : list A -> result (list B) :=
  fix go (xs : list A) : result (list B) :=
    match xs with
    | [] => Ok []
    | x :: rest =>
        match f x with
        | Err e => Err e
        | Ok y => match go rest with
                  | Err e => Err e
                  | Ok ys => Ok (y :: ys)
                  end
        end
    end.

(** ** The schema *)

(** [ApiObjectTypes] *)
Inductive ApiObjectTypes : Type :=
| T_properties | T_reference | T_any_of | T_unknown
| T_integer | T_string | T_bool | T_array | T_float.

Definition type_name (t : ApiObjectTypes) : string :=
  match t with
  | T_properties => "properties"
  | T_reference => "reference"
  | T_any_of => "any_of"
  | T_unknown => "unknown"
  | T_integer => "integer"
  | T_string => "string"
  | T_bool => "bool"
  | T_array => "array"
  | T_float => "float"
  end.

(** [PythonReservedNames], in the order of the dict literal *)
Definition PythonReservedNames : list (string * string) :=
  [ ("from", "from_"); ("format", "format_"); ("type", "type_") ].

(** [JsonToPythonTypes] *)
Definition JsonToPythonTypes : list (string * string) :=
  [ ("integer", "int"); ("string", "str"); ("bool", "bool"); ("float", "float") ].

(** [d.get(k)] *)
Fixpoint dict_get (d : list (string * string)) (k : string) : option string :=
  match d with
  | [] => None
  | (k', v) :: rest => if String.eqb k' k then Some v else dict_get rest k
  end.

(** [d[k]] *)
Definition dict_index (d : list (string * string)) (k : string) : result string :=
  match dict_get d k with
  | Some v => Ok v
  | None => Err (KeyError k)
  end.

#[warnings="-register-all"]
Inductive ApiTypeInfo : Type :=
  mkApiTypeInfo {
    ti_type : ApiObjectTypes;
    ti_enumeration : option (list pyval);
    ti_reference : option string;
    ti_default : pyval;
    ti_array : option ApiTypeInfo;
    ti_any_of : option (list ApiTypeInfo)
  }.

(** [ApiTypeInfo.to_typehint(self, *, ref_str)].  The rows are the branches
    of the [if]/[elif] chain in order; a row is taken when its test holds and
    no earlier one does.  [self.any_of] is true for a non-empty list,
    [self.array] for a present model, [self.reference] for a non-empty
    string; the [unknown] branch leaves [typehint] at its initial value. *)
Fixpoint ApiTypeInfo_to_typehint (ref_str : bool) (self : ApiTypeInfo) : result string :=
  match ti_type self, ti_any_of self, ti_array self, ti_reference self with
  | T_any_of, Some ((_ :: _) as alts), _, _ =>
      hints <- mapM (ApiTypeInfo_to_typehint ref_str) alts ;;
      Ok ("Union[" ++ join ", " hints ++ "]")
  | T_array, _, Some elem, _ =>
      inner <- ApiTypeInfo_to_typehint ref_str elem ;;
      Ok ("List[" ++ inner ++ "]")
  | T_unknown, _, _, _ =>
      Ok EmptyString
  | T_reference, _, _, Some ((String _ _) as reference) =>
      if ref_str then Ok (dq ++ reference ++ dq)
      else Ok ("objects." ++ reference)
  | t, _, _, _ =>
      dict_index JsonToPythonTypes (type_name t)
  end.

(** *** Properties *)

Record ApiProperty : Type :=
  mkApiProperty {
    p_name : string;
    p_description : string;
    p_required : bool;
    p_type_info : ApiTypeInfo
  }.

(** [ApiProperty.validate_name]: [PythonReservedNames.get(value) or value] *)
Definition validate_name (value : string) : string :=
  match dict_get PythonReservedNames value with
  | Some formated_name => if nonempty formated_name then formated_name else value
  | None => value
  end.

(** [validate_description], the same in the three models *)
Definition validate_description (value : string) : string :=
  let value := replace_char "034"%char "'" value in
  let value := replace_char "092"%char EmptyString value in
  value.

(** what pydantic builds from the raw fields of a property: the two field
    validators run on the raw [name] and [description] *)
Definition parse_ApiProperty (name description : string) (required : bool)
    (type_info : ApiTypeInfo) : ApiProperty :=
  {| p_name := validate_name name;
     p_description := validate_description description;
     p_required := required;
     p_type_info := type_info |}.

(** the value of [default_value] when [ApiProperty.to_typehint] formats it *)
Definition default_value (self : ApiProperty) : pyval :=
  let default_value := or_None (ti_default (p_type_info self)) in
  if truthy default_value &&
     match ti_type (p_type_info self) with T_string => true | _ => false end
  then PyStr (dq ++ py_str default_value ++ dq)
  else default_value.

(** [ApiProperty.to_typehint(self, *, ref_str)] *)
Definition ApiProperty_to_typehint (ref_str : bool) (self : ApiProperty)
    : result string :=
  let default_value := default_value self in
  if negb (p_required self) then
    hint <- ApiTypeInfo_to_typehint ref_str (p_type_info self) ;;
    Ok (p_name self ++ ": Optional[" ++ hint ++ "] = " ++ py_str default_value)
  else
    hint <- ApiTypeInfo_to_typehint ref_str (p_type_info self) ;;
    Ok (p_name self ++ ": " ++ hint ++
        (if truthy default_value then " = " ++ py_str default_value
         else EmptyString)).

(** [ApiProperty.to_obj_var] *)
Definition to_obj_var (self : ApiProperty) : string :=
  "self." ++ p_name self ++ " = " ++ p_name self.

(** [ApiProperty.to_doc_line]; [to_typehint()] runs with [ref_str=True] *)
Definition to_doc_line (self : ApiProperty) : result string :=
  hint <- ApiTypeInfo_to_typehint true (p_type_info self) ;;
  Ok (p_name self ++ " (" ++ hint ++ "): " ++ p_description self).

(** *** Methods *)

Record ApiMethod : Type :=
  mkApiMethod {
    m_name : string;
    m_description : string;
    m_arguments : list ApiProperty;
    m_maybe_multipart : bool;
    m_return_type : ApiTypeInfo
  }.

(** what pydantic builds from the raw fields of a method: the field
    validator runs on the raw [description]; the arguments are properties
    already built *)
Definition parse_ApiMethod (name description : string)
    (arguments : list ApiProperty) (maybe_multipart : bool)
    (return_type : ApiTypeInfo) : ApiMethod :=
  {| m_name := name;
     m_description := validate_description description;
     m_arguments := arguments;
     m_maybe_multipart := maybe_multipart;
     m_return_type := return_type |}.

(** the wire key of an argument: [el.name[:-1] if el.name.endswith('_') else el.name] *)
Definition wire_key (el : ApiProperty) : string :=
  if endswith_underscore (p_name el) then drop_last (p_name el) else p_name el.

(** one entry of [json_params] *)
Definition json_param (el : ApiProperty) : string :=
  dq ++ wire_key el ++ dq ++ ": " ++ p_name el.

(** the lists that the loop of [to_function] fills *)
Record fn_lists : Type :=
  mkFnLists {
    args : list string;
    args_opt : list string;
    json_params : list string
  }.

(** the three lists as [to_function] creates them, empty *)
Definition no_lists : fn_lists :=
  {| args := []; args_opt := []; json_params := [] |}.

(** the [for el in self.arguments] loop of [to_function] *)
Fixpoint to_function_loop (arguments : list ApiProperty) (acc : fn_lists)
    : result fn_lists :=
  match arguments with
  | [] => Ok acc
  | el :: rest =>
      if p_required el then
        hint <- ApiProperty_to_typehint false el ;;
        to_function_loop rest
          {| args := args acc ++ [hint];
             args_opt := args_opt acc;
             json_params := json_params acc ++ [json_param el] |}
      else
        hint <- ApiProperty_to_typehint false el ;;
        to_function_loop rest
          {| args := args acc;
             args_opt := args_opt acc ++ [hint];
             json_params := json_params acc ++ [json_param el] |}
  end.

(** the list [args] once the loop is over and [if args_opt:] has run *)
Definition final_args (l : fn_lists) : list string :=
  match args_opt l with
  | [] => args l
  | _ :: _ => ((args l ++ ["*"]) ++ args_opt l)%list
  end.

(** [re.sub(r'(?<!^)(?=[A-Z])', '_', name)] from position [pos] on, [s] being
    [name[pos:]].  The pattern is empty-width: it matches at a position that
    is not the start of the string and is followed by a letter of [A-Z]; the
    replacement is put there and the scan moves one character on. *)
Fixpoint re_sub_from (pos : nat) (s : string) : string :=
  match s with
  | EmptyString => EmptyString
  | String c rest =>
      (if negb (Nat.eqb pos 0) && is_upper c then "_" else EmptyString)
      ++ String c (re_sub_from (S pos) rest)
  end.

Definition snake_case_name (name : string) : string :=
  lower (re_sub_from 0 name).

(** the template of [to_function] once formatted *)
Definition function_text (snake_case_name description name json_params
    first_comma args return_typehint doc_args : string) : string :=
  cat [ "async def "; snake_case_name; "(self"; first_comma; args; ") -> ";
          return_typehint; ":"; nl;
        "        "; tq; description; nl;
        nl;
        "        Args:"; nl;
        "            "; doc_args; nl;
        "        "; tq; nl;
        "        response_api: "; return_typehint;
          " = await self.exec_request("; nl;
        "            "; dq; name; dq; ","; nl;
        "            json="; json_params; ","; nl;
        "            return_type="; return_typehint; " # type: ignore"; nl;
        nl;
        "        )"; nl;
        "        return response_api"; nl ].

(** [ApiMethod.to_function] *)
Definition to_function (self : ApiMethod) : result string :=
  lists <- to_function_loop (m_arguments self) no_lists ;;
  let args := final_args lists in
  let snake_case_name := snake_case_name (m_name self) in
  return_typehint <- ApiTypeInfo_to_typehint false (m_return_type self) ;;
  doc_args <- mapM to_doc_line (m_arguments self) ;;
  Ok (function_text
        snake_case_name
        (m_description self)
        (m_name self)
        ("{" ++ join ("," ++ nl ++ "                ") (json_params lists) ++ "}")
        (match args with [] => EmptyString | _ :: _ => ", " end)
        (join ", " args)
        return_typehint
        (join (nl ++ "            ") doc_args)).

(** *** Objects *)

Record ApiObject : Type :=
  mkApiObject {
    o_name : string;
    o_description : string;
    o_type : ApiObjectTypes;
    o_documentation_link : string;
    o_properties : option (list ApiProperty);
    o_any_of : option (list ApiTypeInfo)
  }.

(** what pydantic builds from the raw fields of an object: the field
    validator runs on the raw [description] *)
Definition parse_ApiObject (name description : string) (type : ApiObjectTypes)
    (documentation_link : string) (properties : option (list ApiProperty))
    (any_of : option (list ApiTypeInfo)) : ApiObject :=
  {| o_name := name;
     o_description := validate_description description;
     o_type := type;
     o_documentation_link := documentation_link;
     o_properties := properties;
     o_any_of := any_of |}.

(** the lists that the loop of [__to_code_properties] fills *)
Record prop_lists : Type :=
  mkPropLists {
    typehints : list string;
    typehints_optional : list string;
    vars_init : list string;
    doc_lines : list string
  }.

(** the [for el in self.properties] loop of [__to_code_properties] *)
Fixpoint to_code_properties_loop (properties : list ApiProperty)
    (acc : prop_lists) : result prop_lists :=
  match properties with
  | [] => Ok acc
  | el :: rest =>
      if p_required el && negb (truthy (ti_default (p_type_info el))) then
        hint <- ApiProperty_to_typehint true el ;;
        doc <- to_doc_line el ;;
        to_code_properties_loop rest
          {| typehints := typehints acc ++ [hint];
             typehints_optional := typehints_optional acc;
             vars_init := vars_init acc ++ [to_obj_var el];
             doc_lines := doc_lines acc ++ [doc] |}
      else
        hint <- ApiProperty_to_typehint true el ;;
        doc <- to_doc_line el ;;
        to_code_properties_loop rest
          {| typehints := typehints acc;
             typehints_optional := typehints_optional acc ++ [hint];
             vars_init := vars_init acc ++ [to_obj_var el];
             doc_lines := doc_lines acc ++ [doc] |}
  end.

(** one element of the comprehension that [__to_code_properties] joins into
    the [properties] field of its template *)
Definition property_block (el : ApiProperty) : result string :=
  hint <- ApiProperty_to_typehint true el ;;
  doc <- to_doc_line el ;;
  Ok (hint ++ nl ++ "    " ++ tq ++ doc ++ tq).

(** the template of [__to_code_properties] once formatted *)
Definition class_text (name description documentation_link properties : string)
    : string :=
  cat [ "class "; name; "(BaseModel):"; nl;
        "    "; tq; description; nl;
        nl;
        "    "; documentation_link; nl;
        "    "; tq; nl;
        "    model_config = ConfigDict("; nl;
        "        populate_by_name=True,"; nl;
        "        alias_generator=lambda x: x[:-1] if x in reserved_python else x,"; nl;
        "    )"; nl;
        "    "; properties; " "; nl;
        "    "; nl ].

(** [ApiObject.__to_code_properties].  The loop fills [typehints] and
    [typehints_optional] and the [if] merges them, as in the source; the
    template is then formatted from [self.properties] itself. *)
Definition to_code_properties (self : ApiObject) : result string :=
  match o_properties self with
  | None | Some [] => Err (ValueError "can not parse properties")
  | Some properties =>
      lists <- to_code_properties_loop properties
                 {| typehints := []; typehints_optional := [];
                    vars_init := []; doc_lines := [] |} ;;
      let typehints : list string :=
        match typehints_optional lists with
        | [] => typehints lists
        | _ :: _ => (typehints lists ++ typehints_optional lists)%list
        end in
      blocks <- mapM property_block properties ;;
      Ok (class_text (o_name self) (o_description self)
            (o_documentation_link self)
            (join (nl ++ "    ") blocks))
  end.

(** [ApiObject.__to_code_any_of]; [to_typehint()] runs with [ref_str=True] *)
Definition to_code_any_of (self : ApiObject) : result string :=
  match o_any_of self with
  | None | Some [] => Err (ValueError "can not parse any_of")
  | Some any_of =>
      hints <- mapM (ApiTypeInfo_to_typehint true) any_of ;;
      Ok (o_name self ++ " = Union[" ++ join ", " hints ++ "]" ++ nl
          ++ tq ++ o_description self ++ tq)
  end.

(** [ApiObject.__to_code_unknown] *)
Definition to_code_unknown (self : ApiObject) : string :=
  o_name self ++ " = Any" ++ nl ++ tq ++ o_description self ++ tq.

(** ** Emission with a standard output

    [Gen A] is what a call leaves behind: the lines it printed, then the
    value it returned or the exception it raised. *)

Definition Gen (A : Type) : Type := (list string * result A)%type.

Definition gret {A} (a : A) : Gen A := ([], Ok a).

Definition glift {A} (r : result A) : Gen A := ([], r).

(** [print(a, b)] *)
Definition print2 (a b : string) : Gen unit := ([a ++ " " ++ b], Ok tt).

Definition gbind {A B} (g : Gen A) (k : A -> Gen B) : Gen B :=
  match g with
  | (out, Err e) => (out, Err e)
  | (out, Ok a) => let (out', r) := k a in ((out ++ out')%list, r)
  end.

(** a generator [f(el) for el in xs] consumed from left to right *)
Fixpoint gen_mapM {A B} (f : A -> Gen B) (xs : list A) : Gen (list B) :=
  match xs with
  | [] => gret []
  | x :: rest =>
      gbind (f x) (fun y =>
      gbind (gen_mapM f rest) (fun ys =>
      gret (y :: ys)))
  end.

(** the kinds that [ApiObject.to_code] renders *)
Definition emission_kind (t : ApiObjectTypes) : bool :=
  match t with
  | T_properties | T_any_of | T_unknown => true
  | _ => false
  end.

(** [ApiObject.to_code] *)
Definition to_code (self : ApiObject) : Gen string :=
  match o_type self with
  | T_properties => glift (to_code_properties self)
  | T_any_of => glift (to_code_any_of self)
  | T_unknown => gret (to_code_unknown self)
  | _ =>
      gbind (print2 (o_name self) "can not be parsed!") (fun _ =>
      gret EmptyString)
  end.

(** *** The scheme *)

Record ApiScheme : Type :=
  mkApiScheme {
    objects : list ApiObject;
    methods : list ApiMethod
  }.

(** [ApiScheme.to_code_objects] *)
Definition to_code_objects (self : ApiScheme) : Gen string :=
  gbind (gen_mapM to_code (objects self)) (fun texts =>
  gret (join (nl ++ nl) texts)).

(** the template of [to_code_methods] once formatted *)
Definition wrapper_text (methods : string) : string :=
  cat [ "class ApiWrapper:"; nl;
        "    def __init__(self, token: str, *, api_url: str = ";
          dq; "https://api.telegram.org/"; dq; "):"; nl;
        "        self.token = token"; nl;
        "        self.api_url = api_url"; nl;
        "        self.client = AsyncClient("; nl;
        "            base_url=api_url + "; dq; "bot"; dq; " + token + '/'"; nl;
        "        )"; nl;
        nl;
        "    async def exec_request("; nl;
        "            self,"; nl;
        "            method: str,"; nl;
        "            json: Dict,"; nl;
        "            return_type: Type[T]"; nl;
        "    ) -> T:"; nl;
        "        result = await self.client.post("; nl;
        "            method,"; nl;
        "            json=json"; nl;
        "        )"; nl;
        "        mdl = ApiResponse[return_type]# type: ignore"; nl;
        "        response = mdl.model_validate(result.json())"; nl;
        "        return response.result"; nl;
        nl;
        "    "; methods; nl ].

(** [ApiScheme.to_code_methods] *)
Definition to_code_methods (self : ApiScheme) : result string :=
  texts <- mapM to_function (methods self) ;;
  Ok (wrapper_text (join (nl ++ nl ++ "    ") texts)).

(** ** Vocabulary of the properties *)

(** the raw name is a key of [PythonReservedNames] *)
Definition reserved (raw : string) : bool :=
  existsb (fun key => String.eqb key raw) (map fst PythonReservedNames).

(** the same descriptor with another [default] *)
Definition with_default (d : pyval) (ti : ApiTypeInfo) : ApiTypeInfo :=
  {| ti_type := ti_type ti;
     ti_enumeration := ti_enumeration ti;
     ti_reference := ti_reference ti;
     ti_default := d;
     ti_array := ti_array ti;
     ti_any_of := ti_any_of ti |}.

(** the same property with another [default] in its descriptor *)
Definition property_with_default (d : pyval) (p : ApiProperty) : ApiProperty :=
  {| p_name := p_name p;
     p_description := p_description p;
     p_required := p_required p;
     p_type_info := with_default d (p_type_info p) |}.

(** the test of the loop of [__to_code_properties]: required and without a
    default *)
Definition required_no_default (el : ApiProperty) : bool :=
  p_required el && negb (truthy (ti_default (p_type_info el))).

(** the order of the partition rule: the required properties without a
    default, then the optional or defaulted ones, each group in its original
    order *)
Definition required_first (props : list ApiProperty) : list ApiProperty :=
  filter required_no_default props
  ++ filter (fun el => negb (required_no_default el)) props.

(** a record declaration laid out in the order of the partition rule *)
Definition partitioned_class_text (self : ApiObject) (props : list ApiProperty)
    : result string :=
  blocks <- mapM property_block (required_first props) ;;
  Ok (class_text (o_name self) (o_description self)
        (o_documentation_link self) (join (nl ++ "    ") blocks)).

(** a type alias over the union of the alternatives resolved in the mode
    [ref_str] *)
Definition union_alias (ref_str : bool) (self : ApiObject)
    (alternatives : list ApiTypeInfo) : result string :=
  hints <- mapM (ApiTypeInfo_to_typehint ref_str) alternatives ;;
  Ok (o_name self ++ " = Union[" ++ join ", " hints ++ "]" ++ nl
      ++ tq ++ o_description self ++ tq).

(** an underscore before every capital letter of [s] *)
Fixpoint underscore_capitals (s : string) : string :=
  match s with
  | EmptyString => EmptyString
  | String c rest =>
      if is_upper c then String "_" (String c (underscore_capitals rest))
      else String c (underscore_capitals rest)
  end.

(** the word-boundary conversion in the words of its description: an
    underscore before every interior capital letter (the first character is
    not interior), then everything in lower case *)
Definition snake_of_words (name : string) : string :=
  match name with
  | EmptyString => EmptyString
  | String c rest => lower (String c (underscore_capitals rest))
  end.

(** descriptors made of recognized variants only: a primitive of a mapped
    kind (with or without an enumeration), an array with its element, a union
    with its alternatives, a reference with its name, unknown *)
Fixpoint recognized (t : ApiTypeInfo) : bool :=
  match ti_type t with
  | T_any_of =>
      match ti_any_of t with
      | Some ((_ :: _) as alts) => forallb recognized alts
      | _ => false
      end
  | T_array =>
      match ti_array t with
      | Some elem => recognized elem
      | None => false
      end
  | T_reference =>
      match ti_reference t with
      | Some (String _ _) => true
      | _ => false
      end
  | T_unknown => true
  | T_integer | T_string | T_bool | T_float => true
  | T_properties => false
  end.

(** a descriptor that is malformed at its root: an array without its element,
    a union without alternatives, a reference without a name, or the kind
    [properties], which is no variant of a descriptor and no key of
    [JsonToPythonTypes] *)
Definition malformed (t : ApiTypeInfo) : bool :=
  match ti_type t with
  | T_array =>
      match ti_array t with None => true | Some _ => false end
  | T_any_of =>
      match ti_any_of t with None | Some [] => true | Some (_ :: _) => false end
  | T_reference =>
      match ti_reference t with
      | None | Some EmptyString => true
      | Some (String _ _) => false
      end
  | T_properties => true
  | T_unknown | T_integer | T_string | T_bool | T_float => false
  end.

(** the diagnostic that [to_code] prints for an object it cannot render *)
Definition diagnostic (self : ApiObject) : string :=
  o_name self ++ " can not be parsed!".

(** the rendered parameters of the two groups, the marker between them when
    the second group is not empty *)
Definition with_marker (required optional : list string) : list string :=
  match optional with
  | [] => required
  | _ :: _ => required ++ "*" :: optional
  end.

(** ** Schemas of the examples *)

(** a descriptor with its kind only *)
Definition primitive (kind : ApiObjectTypes) : ApiTypeInfo :=
  mkApiTypeInfo kind None None PyNone None None.

(** a descriptor that refers to the object [name] *)
Definition reference_to (name : string) : ApiTypeInfo :=
  mkApiTypeInfo T_reference None (Some name) PyNone None None.

(** a tagged union of two references *)
Definition MaybeInaccessibleMessage : ApiObject :=
  parse_ApiObject "MaybeInaccessibleMessage"
    "A message that may be inaccessible"
    T_any_of "https://core.telegram.org/bots/api/#maybeinaccessiblemessage"
    None (Some [reference_to "Message"; reference_to "InaccessibleMessage"]).

(** a tagged union of the alternatives integer and string *)
Definition ChatId : ApiObject :=
  parse_ApiObject "ChatId" "Identifier or username of the chat" T_any_of
    "https://core.telegram.org/bots/api/#chatid"
    None (Some [primitive T_integer; primitive T_string]).

(** a record whose optional property comes before its required one *)
Definition Update_properties : list ApiProperty :=
  [ parse_ApiProperty "message" "New incoming message" false
      (reference_to "Message");
    parse_ApiProperty "update_id" "The unique identifier of the update" true
      (primitive T_integer) ].

Definition Update : ApiObject :=
  parse_ApiObject "Update" "An incoming update" T_properties
    "https://core.telegram.org/bots/api/#update"
    (Some Update_properties) None.

(** the arguments of the method [sendMessage] *)
Definition sendMessage_arguments (d1 d2 d3 : string) : list ApiProperty :=
  [ parse_ApiProperty "chat_id" d1 true (primitive T_integer);
    parse_ApiProperty "text" d2 true (primitive T_string);
    parse_ApiProperty "reply_to_message_id" d3 false (primitive T_integer) ].

(** a method whose only argument has a reserved name *)
Definition sendDice : ApiMethod :=
  parse_ApiMethod "sendDice" "Send a dice"
    [ parse_ApiProperty "type" "Type of the dice" true (primitive T_string) ]
    false (primitive T_bool).

(** a method whose only argument has a name that ends with an underscore *)
Definition banUser : ApiMethod :=
  parse_ApiMethod "banUser" "Ban a user"
    [ parse_ApiProperty "user_" "The user" true (primitive T_integer) ]
    false (primitive T_bool).

(** an object of a kind that [to_code] does not render *)
Definition Counter : ApiObject :=
  parse_ApiObject "Counter" "A counter" T_integer
    "https://core.telegram.org/bots/api/#counter" None None.

(** ** The generated module header and the alias of a field *)

(** [PythonReservedNames.values()], which [main.py] writes into the model
    block as the tuple [reserved_python] *)
Definition reserved_python : list string := map snd PythonReservedNames.

(** the [alias_generator] that every emitted record declaration carries in
    its [model_config]: [lambda x: x[:-1] if x in reserved_python else x] *)
Definition alias_generator (x : string) : string :=
  if existsb (String.eqb x) reserved_python then drop_last x else x.

(** ** Vocabulary of the further properties *)

(** the character [c] occurs in [s] *)
Fixpoint has_char (c : ascii) (s : string) : bool :=
  match s with
  | EmptyString => false
  | String c' rest => Ascii.eqb c' c || has_char c rest
  end.

(** a letter of [A-Z] occurs in [s] *)
Fixpoint has_upper (s : string) : bool :=
  match s with
  | EmptyString => false
  | String c rest => is_upper c || has_upper rest
  end.

(** the number of letters of [A-Z] in [s] *)
Fixpoint count_upper (s : string) : nat :=
  match s with
  | EmptyString => 0
  | String c rest => (if is_upper c then 1 else 0) + count_upper rest
  end.

(** [s] without its first character *)
Definition tail (s : string) : string :=
  match s with
  | EmptyString => EmptyString
  | String _ rest => rest
  end.

(** a node of kind [reference] occurs in the tree *)
Fixpoint mentions_reference (t : ApiTypeInfo) : bool :=
  match ti_type t with
  | T_reference => true
  | T_any_of =>
      match ti_any_of t with
      | Some alts => existsb mentions_reference alts
      | None => false
      end
  | T_array =>
      match ti_array t with
      | Some elem => mentions_reference elem
      | None => false
      end
  | _ => false
  end.

(** the kinds on which [JsonToPythonTypes[self.type]] can be reached and
    raise *)
Definition raising_kinds : list string :=
  ["properties"; "reference"; "any_of"; "array"].

(** the descriptor of a property is a tree of recognized variants *)
Definition resolvable (el : ApiProperty) : bool :=
  recognized (p_type_info el).

(** the return type and the type of every argument are trees of recognized
    variants *)
Definition callable (m : ApiMethod) : bool :=
  recognized (m_return_type m) && forallb resolvable (m_arguments m).

(** a record with at least one property, all resolvable; a union with at
    least one alternative, all recognized; or an object of another kind *)
Definition renderable (o : ApiObject) : bool :=
  match o_type o with
  | T_properties =>
      match o_properties o with
      | Some ((_ :: _) as properties) => forallb resolvable properties
      | _ => false
      end
  | T_any_of =>
      match o_any_of o with
      | Some ((_ :: _) as any_of) => forallb recognized any_of
      | _ => false
      end
  | _ => true
  end.

(** the objects of a scheme that [to_code] cannot render *)
Definition skipped (objs : list ApiObject) : list ApiObject :=
  filter (fun o => negb (emission_kind (o_type o))) objs.

(** two results that are both values, or the same exception *)
Definition same_outcome {A B} (r1 : result A) (r2 : result B) : Prop :=
  match r1, r2 with
  | Ok _, Ok _ => True
  | Err e1, Err e2 => e1 = e2
  | _, _ => False
  end.

(** every character of [s] is an ASCII character; on such a string
    [str.lower()] is [lower] *)
Fixpoint ascii_only (s : string) : bool :=
  match s with
  | EmptyString => true
  | String c rest => (nat_of_ascii c <? 128)%nat && ascii_only rest
  end.

(** * Properties *)

(** ** Text *)

Lemma append_empty_r (s : string) : s ++ EmptyString = s.
Proof.
  induction s as [|c s IH]; simpl; [reflexivity | now rewrite IH].
Qed.

Lemma append_assoc (s t u : string) : (s ++ t) ++ u = s ++ t ++ u.
Proof.
  induction s as [|c s IH]; simpl; [reflexivity | now rewrite IH].
Qed.

Lemma drop_last_length (s : string) :
  String.length (drop_last s) = pred (String.length s).
Proof.
  induction s as [|c s IH]; simpl; [reflexivity|].
  destruct s as [|c' s']; [reflexivity|].
  simpl in *. now rewrite IH.
Qed.

Lemma endswith_underscore_nonempty (s : string) :
  endswith_underscore s = true -> s <> EmptyString.
Proof.
  destruct s; simpl; [discriminate | intros _ H; discriminate H].
Qed.

Lemma drop_last_shorter (s : string) :
  s <> EmptyString -> drop_last s <> s.
Proof.
  intros Hne Heq.
  assert (Hlen : String.length (drop_last s) = String.length s) by now rewrite Heq.
  rewrite drop_last_length in Hlen.
  destruct s as [|c s']; [now apply Hne | simpl in Hlen; lia].
Qed.

Lemma endswith_underscore_append (s : string) :
  endswith_underscore (s ++ "_") = true.
Proof.
  induction s as [|c s IH]; [reflexivity|].
  simpl. destruct (s ++ "_") eqn:E; [|exact IH].
  destruct s; discriminate E.
Qed.

Lemma drop_last_append (s : string) (c : ascii) :
  drop_last (s ++ String c EmptyString) = s.
Proof.
  induction s as [|d s IH]; [reflexivity|].
  simpl. destruct (s ++ String c EmptyString) eqn:E.
  - destruct s; discriminate E.
  - now rewrite IH.
Qed.

Lemma append_length (s t : string) :
  String.length (s ++ t) = String.length s + String.length t.
Proof.
  induction s as [|c s IH]; simpl; [reflexivity | now rewrite IH].
Qed.

Lemma append_underscore_differs (s : string) : s ++ "_" <> s.
Proof.
  intros H. apply (f_equal String.length) in H.
  rewrite append_length in H. simpl in H. lia.
Qed.

(** ** The identifier sanitizer *)

(** the three rows of [PythonReservedNames], or a name that is not a key *)
Lemma validate_name_cases (raw : string) :
  (raw = "from" \/ raw = "format" \/ raw = "type")
  \/ (reserved raw = false /\ validate_name raw = raw).
Proof.
  cbv [reserved validate_name PythonReservedNames existsb map fst dict_get].
  destruct (String.eqb_spec "from" raw) as [<-|_]; [now left; left|].
  destruct (String.eqb_spec "format" raw) as [<-|_]; [now left; right; left|].
  destruct (String.eqb_spec "type" raw) as [<-|_]; [now left; right; right|].
  right. split; reflexivity.
Qed.

Lemma validate_name_reserved (raw : string) :
  reserved raw = true -> validate_name raw = raw ++ "_".
Proof.
  destruct (validate_name_cases raw) as [[-> | [-> | ->]] | [Hr _]];
    try reflexivity.
  rewrite Hr. discriminate.
Qed.

Lemma validate_name_not_reserved (raw : string) :
  reserved raw = false -> validate_name raw = raw.
Proof.
  destruct (validate_name_cases raw) as [[-> | [-> | ->]] | [_ Hv]];
    try discriminate.
  intros _. exact Hv.
Qed.

(** C8: the sanitizer appends an underscore to a raw name exactly when the
    name is a key of the reserved-word table, and the result then differs from
    the raw name; any other name comes back unchanged.  A sanitized name is
    never reserved, so sanitizing it again changes nothing: [from_] stays
    [from_]. *)
Theorem validate_name_rewrites_exactly_reserved (raw : string) :
  validate_name raw = (if reserved raw then raw ++ "_" else raw)
  /\ (reserved raw = true <-> validate_name raw <> raw)
  /\ reserved (validate_name raw) = false
  /\ validate_name (validate_name raw) = validate_name raw
  /\ validate_name "from_" = "from_".
Proof.
  destruct (validate_name_cases raw) as [[-> | [-> | ->]] | [Hr Hv]].
  1-3: repeat split; try reflexivity; try discriminate.
  rewrite Hv, Hr. repeat split; try assumption; try reflexivity.
  - discriminate.
  - intros H. now contradiction H.
Qed.

(** ** Comprehensions and loops *)

Lemma mapM_cons_Ok {A B} (f : A -> result B) (x : A) (xs : list A) (ys : list B) :
  mapM f (x :: xs) = Ok ys ->
  exists y ys', f x = Ok y /\ mapM f xs = Ok ys' /\ ys = y :: ys'.
Proof.
  simpl. destruct (f x) as [y|e]; [|discriminate].
  destruct (mapM f xs) as [ys'|e]; [|discriminate].
  intros [= <-]. now exists y, ys'.
Qed.

Lemma mapM_Forall2 {A B} (f : A -> result B) (xs : list A) (ys : list B) :
  Forall2 (fun x y => f x = Ok y) xs ys <-> mapM f xs = Ok ys.
Proof.
  split.
  - induction 1 as [|x y xs ys Hx _ IH]; [reflexivity|].
    simpl. now rewrite Hx, IH.
  - revert ys. induction xs as [|x xs IH]; intros ys H.
    + injection H as <-. constructor.
    + apply mapM_cons_Ok in H as (y & ys' & Hx & Hxs & ->).
      constructor; auto.
Qed.

Lemma mapM_Err {A B} (f : A -> result B) (xs : list A) (x : A) (e : exn) :
  In x xs -> f x = Err e -> exists e', mapM f xs = Err e'.
Proof.
  induction xs as [|a xs IH]; intros Hin Hx; [contradiction|].
  simpl. destruct Hin as [-> | Hin].
  - rewrite Hx. now exists e.
  - destruct (f a) as [y|e1]; [|now exists e1].
    destruct (IH Hin Hx) as [e' ->]. now exists e'.
Qed.

Lemma mapM_app {A B} (f : A -> result B) (xs xs' : list A) (ys ys' : list B) :
  mapM f xs = Ok ys -> mapM f xs' = Ok ys' ->
  mapM f (xs ++ xs')%list = Ok (ys ++ ys')%list.
Proof.
  rewrite <- !mapM_Forall2. apply Forall2_app.
Qed.

(** the loop of [to_function] appends one payload entry per argument, in
    order *)
Lemma to_function_loop_json (arguments : list ApiProperty) :
  forall acc lists,
    to_function_loop arguments acc = Ok lists ->
    json_params lists = (json_params acc ++ map json_param arguments)%list.
Proof.
  induction arguments as [|el rest IH]; intros acc lists H; simpl in H.
  - injection H as <-. simpl. now rewrite app_nil_r.
  - destruct (p_required el);
      (destruct (ApiProperty_to_typehint false el) as [hint|e];
       [|discriminate]);
      simpl in H; apply IH in H; rewrite H; simpl;
      now rewrite <- app_assoc.
Qed.

(** the loop of [to_function] sends the rendered parameter of a required
    argument to [args] and of any other argument to [args_opt], in order *)
Lemma to_function_loop_groups (arguments : list ApiProperty) :
  forall acc req opt,
    mapM (ApiProperty_to_typehint false) (filter p_required arguments) = Ok req ->
    mapM (ApiProperty_to_typehint false)
         (filter (fun el => negb (p_required el)) arguments) = Ok opt ->
    to_function_loop arguments acc =
      Ok {| args := (args acc ++ req)%list;
            args_opt := (args_opt acc ++ opt)%list;
            json_params := (json_params acc ++ map json_param arguments)%list |}.
Proof.
  induction arguments as [|el rest IH]; intros acc req opt Hreq Hopt.
  - injection Hreq as <-. injection Hopt as <-. simpl.
    rewrite !app_nil_r. now destruct acc.
  - simpl in Hreq, Hopt |- *. destruct (p_required el); simpl in Hreq, Hopt.
    + destruct (ApiProperty_to_typehint false el) as [hint|e]; [|discriminate].
      destruct (mapM _ (filter p_required rest)) as [req'|e] eqn:E; [|discriminate].
      injection Hreq as <-. simpl.
      rewrite (IH _ req' opt eq_refl Hopt). simpl.
      now rewrite <- !app_assoc.
    + destruct (ApiProperty_to_typehint false el) as [hint|e]; [|discriminate].
      destruct (mapM _ (filter _ rest)) as [opt'|e] eqn:E in Hopt; [|discriminate].
      injection Hopt as <-. simpl.
      rewrite (IH _ req opt' Hreq E). simpl.
      now rewrite <- !app_assoc.
Qed.

(** resolution does not read the [default] of a descriptor *)
Lemma to_typehint_with_default (ref_str : bool) (d : pyval) (ti : ApiTypeInfo) :
  ApiTypeInfo_to_typehint ref_str (with_default d ti)
  = ApiTypeInfo_to_typehint ref_str ti.
Proof.
  destruct ti. reflexivity.
Qed.

(** ** Defaults *)

Lemma falsy_defaults :
  truthy (PyStr EmptyString) = false
  /\ truthy (PyInt 0) = false
  /\ truthy (PyBool false) = false
  /\ truthy PyNone = false.
Proof.
  repeat split.
Qed.

(** C9: a property whose default is falsy (the empty string, 0, False) is
    rendered as the same property without a default: [name: Optional[T] = None]
    when it is not required, [name: T] with no default at all when it is. *)
Theorem falsy_default_renders_as_no_default (ref_str : bool) (p : ApiProperty) :
  truthy (ti_default (p_type_info p)) = false ->
  ApiProperty_to_typehint ref_str p
    = ApiProperty_to_typehint ref_str (property_with_default PyNone p)
  /\ ApiProperty_to_typehint ref_str p
     = (hint <- ApiTypeInfo_to_typehint ref_str (p_type_info p) ;;
        Ok (if p_required p
            then p_name p ++ ": " ++ hint
            else p_name p ++ ": Optional[" ++ hint ++ "] = None")).
Proof.
  intros Hfalsy.
  assert (Hshape : forall q,
    truthy (ti_default (p_type_info q)) = false ->
    ApiProperty_to_typehint ref_str q
    = (hint <- ApiTypeInfo_to_typehint ref_str (p_type_info q) ;;
       Ok (if p_required q
           then p_name q ++ ": " ++ hint
           else p_name q ++ ": Optional[" ++ hint ++ "] = None"))).
  { intros q Hq. unfold ApiProperty_to_typehint, default_value, or_None.
    rewrite Hq. simpl.
    destruct (p_required q); simpl;
      destruct (ApiTypeInfo_to_typehint ref_str (p_type_info q)); simpl;
      try reflexivity.
    now rewrite append_empty_r. }
  split; [|now apply Hshape].
  rewrite (Hshape p Hfalsy), (Hshape (property_with_default PyNone p) eq_refl).
  unfold property_with_default. cbn [p_type_info p_required p_name].
  now rewrite to_typehint_with_default.
Qed.

Lemma falsy_default_renders_as_no_default_witness :
  truthy (PyInt 0) = false
  /\ ApiProperty_to_typehint false
       (mkApiProperty "offset" "Offset" false
          (mkApiTypeInfo T_integer None None (PyInt 0) None None))
     = Ok "offset: Optional[int] = None".
Proof.
  split; [reflexivity|].
  exact (proj2
    (falsy_default_renders_as_no_default false
       (mkApiProperty "offset" "Offset" false
          (mkApiTypeInfo T_integer None None (PyInt 0) None None)) eq_refl)).
Defined.

(** ** Type resolution *)

(** induction over a descriptor, its element and its alternatives *)
Lemma ApiTypeInfo_nested_ind (P : ApiTypeInfo -> Prop) :
  (forall ty en rf df ar ao,
      match ar with Some elem => P elem | None => True end ->
      match ao with Some alts => Forall P alts | None => True end ->
      P (mkApiTypeInfo ty en rf df ar ao)) ->
  forall t, P t.
Proof.
  intros step. fix IH 1. intros [ty en rf df ar ao]. apply step.
  - destruct ar as [elem|]; [apply IH | exact I].
  - destruct ao as [alts|]; [|exact I].
    induction alts as [|alt alts IHalts]; constructor; [apply IH | exact IHalts].
Qed.

Lemma mapM_recognized (ref_str : bool) (alts : list ApiTypeInfo) :
  Forall (fun t => recognized t = true ->
                   exists s, ApiTypeInfo_to_typehint ref_str t = Ok s) alts ->
  forallb recognized alts = true ->
  exists hints, mapM (ApiTypeInfo_to_typehint ref_str) alts = Ok hints.
Proof.
  induction 1 as [|alt alts Halt _ IH]; intros Hall; [now exists []|].
  simpl in Hall. apply andb_true_iff in Hall as [Hr Hrest].
  destruct (Halt Hr) as [s Hs]. destruct (IH Hrest) as [hints Hhints].
  exists (s :: hints). simpl. now rewrite Hs, Hhints.
Qed.

(** resolution is a total function, and on a tree of recognized variants it
    returns a string *)
Lemma recognized_resolves (ref_str : bool) (t : ApiTypeInfo) :
  recognized t = true -> exists s, ApiTypeInfo_to_typehint ref_str t = Ok s.
Proof.
  induction t as [ty en rf df ar ao IHar IHao] using ApiTypeInfo_nested_ind.
  intros Hrec. destruct ty; cbn in Hrec; try discriminate.
  - (* reference *)
    destruct rf as [[|c r]|]; try discriminate.
    destruct ref_str; eexists; reflexivity.
  - (* any_of *)
    destruct ao as [[|alt alts]|]; try discriminate.
    destruct (mapM_recognized ref_str IHao Hrec) as [hints Hhints].
    exists ("Union[" ++ join ", " hints ++ "]").
    cbn [ApiTypeInfo_to_typehint ti_type ti_any_of ti_array ti_reference].
    now rewrite Hhints.
  - (* unknown *)
    now exists EmptyString.
  - now exists "int".
  - now exists "str".
  - now exists "bool".
  - (* array *)
    destruct ar as [elem|]; try discriminate.
    destruct (IHar Hrec) as [inner Hinner].
    exists ("List[" ++ inner ++ "]").
    cbn [ApiTypeInfo_to_typehint ti_type ti_any_of ti_array ti_reference].
    now rewrite Hinner.
  - now exists "float".
Qed.

(** the string is empty only when the root of the tree is [unknown] *)
Lemma resolved_empty_only_unknown (ref_str : bool) (t : ApiTypeInfo) :
  ApiTypeInfo_to_typehint ref_str t = Ok EmptyString -> ti_type t = T_unknown.
Proof.
  destruct t as [ty en rf df ar ao].
  destruct ty; cbn; trivial; intros H; exfalso.
  - discriminate H.
  - destruct rf as [[|c r]|]; try discriminate H.
    destruct ref_str; discriminate H.
  - destruct ao as [[|alt alts]|]; try discriminate H.
    cbn in H. destruct (ApiTypeInfo_to_typehint ref_str alt); [|discriminate H].
    destruct (mapM _ alts); discriminate H.
  - discriminate H.
  - discriminate H.
  - discriminate H.
  - destruct ar as [elem|]; [|discriminate H].
    destruct (ApiTypeInfo_to_typehint ref_str elem); discriminate H.
  - discriminate H.
Qed.

(** C2: a descriptor of kind [unknown] is a recognized variant and resolves,
    in both reference modes, to the empty string; a property of that kind is
    rendered with nothing between the brackets of [Optional], while an object
    of kind [unknown] is rendered as an alias of [Any]. *)
Theorem unknown_resolves_to_empty_string
    (ref_str : bool) (en : option (list pyval)) (rf : option string)
    (df : pyval) (ar : option ApiTypeInfo) (ao : option (list ApiTypeInfo)) :
  let unknown := mkApiTypeInfo T_unknown en rf df ar ao in
  recognized unknown = true
  /\ ApiTypeInfo_to_typehint ref_str unknown = Ok EmptyString
  /\ ApiProperty_to_typehint ref_str
       (mkApiProperty "file" "File to send" false
          (mkApiTypeInfo T_unknown None None PyNone None None))
     = Ok "file: Optional[] = None"
  /\ to_code (mkApiObject "InputFile" "The contents of a file" T_unknown
                "https://core.telegram.org/bots/api/#inputfile" None None)
     = ([], Ok ("InputFile = Any" ++ nl ++ tq ++ "The contents of a file" ++ tq)).
Proof.
  repeat split.
Qed.

(** *** Exceptions escape from the generation run *)

Lemma to_function_loop_Err (arguments : list ApiProperty) (el : ApiProperty) (e : exn) :
  In el arguments ->
  ApiProperty_to_typehint false el = Err e ->
  forall acc, exists e', to_function_loop arguments acc = Err e'.
Proof.
  induction arguments as [|a rest IH]; intros Hin Hel acc; [contradiction|].
  simpl. destruct Hin as [-> | Hin].
  - rewrite Hel. exists e. now destruct (p_required el).
  - destruct (p_required a);
      (destruct (ApiProperty_to_typehint false a) as [hint|e1];
       [simpl; now apply IH | now exists e1]).
Qed.

Lemma to_function_Err (m : ApiMethod) (el : ApiProperty) (e : exn) :
  In el (m_arguments m) ->
  ApiProperty_to_typehint false el = Err e ->
  exists e', to_function m = Err e'.
Proof.
  intros Hin Hel. unfold to_function.
  destruct (to_function_loop_Err _ _ Hin Hel no_lists) as [e' ->].
  now exists e'.
Qed.

Lemma to_code_properties_loop_Err (properties : list ApiProperty)
    (el : ApiProperty) (e : exn) :
  In el properties ->
  ApiProperty_to_typehint true el = Err e ->
  forall acc, exists e', to_code_properties_loop properties acc = Err e'.
Proof.
  induction properties as [|a rest IH]; intros Hin Hel acc; [contradiction|].
  simpl. destruct Hin as [-> | Hin].
  - rewrite Hel. exists e. now destruct (_ && _).
  - destruct (_ && _);
      (destruct (ApiProperty_to_typehint true a) as [hint|e1];
       [|now exists e1]);
      (destruct (to_doc_line a) as [doc|e2]; [|now exists e2]);
      simpl; now apply IH.
Qed.

Lemma gen_mapM_Err {A B} (f : A -> Gen B) (xs : list A) (x : A) (e : exn) :
  In x xs -> snd (f x) = Err e -> exists e', snd (gen_mapM f xs) = Err e'.
Proof.
  induction xs as [|a xs IH]; intros Hin Hx; [contradiction|].
  simpl. destruct Hin as [-> | Hin].
  - destruct (f x) as [out r]. simpl in Hx. subst r. now exists e.
  - destruct (f a) as [out [y|e1]]; [|now exists e1].
    destruct (IH Hin Hx) as [e' He']. simpl.
    destruct (gen_mapM f xs) as [out' r']. simpl in He'. subst r'.
    now exists e'.
Qed.

(** C5: a descriptor that is an array without its element, a union without
    alternatives (or a reference without a name) or of the kind [properties],
    which is outside [JsonToPythonTypes], raises [KeyError]
    on its kind in both reference modes and so returns no string; the
    exception escapes from the rendering of a property of that type, and from
    the generation of the client block and of the model block of a scheme
    that has the property as an argument of a method or as a property of a
    record object. *)
Theorem malformed_descriptor_raises (ref_str : bool) (t : ApiTypeInfo) :
  malformed t = true ->
  ApiTypeInfo_to_typehint ref_str t = Err (KeyError (type_name (ti_type t)))
  /\ (forall s, ApiTypeInfo_to_typehint ref_str t <> Ok s)
  /\ (forall el, p_type_info el = t ->
        ApiProperty_to_typehint ref_str el
        = Err (KeyError (type_name (ti_type t))))
  /\ (forall scheme m el,
        In m (methods scheme) -> In el (m_arguments m) -> p_type_info el = t ->
        exists e, to_code_methods scheme = Err e)
  /\ (forall scheme o props el,
        In o (objects scheme) -> o_type o = T_properties ->
        o_properties o = Some props -> In el props -> p_type_info el = t ->
        exists e, snd (to_code_objects scheme) = Err e).
Proof.
  intros Hmal.
  assert (Herr : forall r, ApiTypeInfo_to_typehint r t
                           = Err (KeyError (type_name (ti_type t)))).
  { intros r. destruct t as [ty en rf df ar ao].
    destruct ty; cbn in Hmal; try discriminate.
    - reflexivity.
    - destruct rf as [[|c name]|]; try discriminate; reflexivity.
    - destruct ao as [[|alt alts]|]; try discriminate; reflexivity.
    - destruct ar as [elem|]; try discriminate; reflexivity. }
  assert (Hprop : forall r el, p_type_info el = t ->
            ApiProperty_to_typehint r el
            = Err (KeyError (type_name (ti_type t)))).
  { intros r el <-. unfold ApiProperty_to_typehint. rewrite Herr.
    now destruct (negb (p_required el)). }
  repeat split; auto.
  - intros s. rewrite Herr. discriminate.
  - intros scheme m el Hm Hel Hty.
    destruct (to_function_Err m el Hel (Hprop false el Hty)) as [e He].
    unfold to_code_methods.
    destruct (mapM_Err to_function _ _ Hm He) as [e' ->]. now exists e'.
  - intros scheme o props el Ho Hkind Hprops Hel Hty.
    assert (Hcode : exists e, snd (to_code o) = Err e).
    { unfold to_code, to_code_properties. rewrite Hkind, Hprops.
      destruct props as [|p props']; [contradiction|].
      destruct (to_code_properties_loop_Err _ _ Hel (Hprop true el Hty)
                  {| typehints := []; typehints_optional := [];
                     vars_init := []; doc_lines := [] |}) as [e ->].
      now exists e. }
    destruct Hcode as [e He].
    destruct (gen_mapM_Err to_code _ _ Ho He) as [e' He'].
    unfold to_code_objects, gbind.
    destruct (gen_mapM to_code (objects scheme)) as [out r].
    simpl in He'. subst r. now exists e'.
Qed.

Lemma malformed_descriptor_raises_witness :
  malformed (mkApiTypeInfo T_array None None PyNone None None) = true
  /\ ApiTypeInfo_to_typehint true
       (mkApiTypeInfo T_array None None PyNone None None)
     = Err (KeyError "array").
Proof.
  split; [reflexivity|].
  exact (proj1 (malformed_descriptor_raises true
                  (mkApiTypeInfo T_array None None PyNone None None) eq_refl)).
Defined.

(** ** The Object Emitter *)

(** C3: for an object of tagged-union kind with at least one alternative,
    the Object Emitter emits the alias [name = Union[h1, ..., hn]] followed by
    the description as a docstring, [hi] being the resolution of the i-th
    alternative in forward-reference mode (a reference is the quoted name). *)
Theorem any_of_alias_in_forward_reference_mode
    (self : ApiObject) (alts : list ApiTypeInfo) (hints : list string) :
  o_type self = T_any_of ->
  o_any_of self = Some alts ->
  alts <> [] ->
  Forall2 (fun alt hint => ApiTypeInfo_to_typehint true alt = Ok hint)
          alts hints ->
  to_code self
  = ([], Ok (o_name self ++ " = Union[" ++ join ", " hints ++ "]" ++ nl
             ++ tq ++ o_description self ++ tq)).
Proof.
  intros Hkind Hany Hne Hhints.
  apply mapM_Forall2 in Hhints.
  unfold to_code, to_code_any_of. rewrite Hkind, Hany.
  destruct alts as [|alt alts']; [now contradiction Hne|].
  now rewrite Hhints.
Qed.

Lemma any_of_alias_in_forward_reference_mode_witness :
  to_code ChatId
  = ([], Ok ("ChatId = Union[int, str]" ++ nl
             ++ tq ++ "Identifier or username of the chat" ++ tq)).
Proof.
  apply (@any_of_alias_in_forward_reference_mode ChatId
           [primitive T_integer; primitive T_string] ["int"; "str"]).
  - reflexivity.
  - reflexivity.
  - discriminate.
  - repeat constructor.
Defined.

(** C3, as stated, fails: the alias of a union of two references lists the
    quoted names, not the names qualified by [objects.]. *)
Lemma any_of_alias_not_in_direct_reference_mode :
  to_code MaybeInaccessibleMessage
  = ([], Ok ("MaybeInaccessibleMessage = Union["
             ++ dq ++ "Message" ++ dq ++ ", "
             ++ dq ++ "InaccessibleMessage" ++ dq ++ "]" ++ nl
             ++ tq ++ "A message that may be inaccessible" ++ tq))
  /\ union_alias false MaybeInaccessibleMessage
       [reference_to "Message"; reference_to "InaccessibleMessage"]
     = Ok ("MaybeInaccessibleMessage = "
           ++ "Union[objects.Message, objects.InaccessibleMessage]" ++ nl
           ++ tq ++ "A message that may be inaccessible" ++ tq)
  /\ to_code MaybeInaccessibleMessage
     <> ([], union_alias false MaybeInaccessibleMessage
               [reference_to "Message"; reference_to "InaccessibleMessage"]).
Proof.
  split; [reflexivity|]. split; [reflexivity|].
  intros H. vm_compute in H. discriminate H.
Qed.

(** *** Objects that are skipped *)

Lemma gen_mapM_app {A B} (f : A -> Gen B) (xs ys : list A) :
  forall out1 out2 r1 r2,
    gen_mapM f xs = (out1, Ok r1) ->
    gen_mapM f ys = (out2, Ok r2) ->
    gen_mapM f (xs ++ ys) = ((out1 ++ out2)%list, Ok (r1 ++ r2)%list).
Proof.
  induction xs as [|x xs IH]; intros out1 out2 r1 r2 Hxs Hys.
  - injection Hxs as <- <-. exact Hys.
  - simpl in Hxs |- *. unfold gbind in Hxs |- *.
    destruct (f x) as [o [y|e]]; [|discriminate].
    destruct (gen_mapM f xs) as [o' [r'|e]] eqn:E; [|discriminate].
    simpl in Hxs. injection Hxs as <- <-.
    rewrite (IH _ _ _ _ eq_refl Hys). simpl.
    now rewrite !app_nil_r, app_assoc.
Qed.

(** ** The Method Emitter *)

(** past the first position, the substitution puts an underscore before
    every letter of [A-Z] *)
Lemma re_sub_from_interior (s : string) :
  forall pos, pos <> 0 -> re_sub_from pos s = underscore_capitals s.
Proof.
  induction s as [|c rest IH]; intros pos Hpos; [reflexivity|].
  simpl. rewrite (IH (S pos)) by discriminate.
  destruct (Nat.eqb_spec pos 0) as [->|_]; [now contradiction Hpos|].
  simpl. now destruct (is_upper c).
Qed.

(** ** The order of parameters and properties *)

(** when no required argument carries a default, the test of the Object
    Emitter's loop and the test of the Method Emitter's loop agree *)
Lemma filter_required_no_default (arguments : list ApiProperty) :
  Forall (fun el => p_required el = true ->
                    truthy (ti_default (p_type_info el)) = false) arguments ->
  filter required_no_default arguments = filter p_required arguments
  /\ filter (fun el => negb (required_no_default el)) arguments
     = filter (fun el => negb (p_required el)) arguments.
Proof.
  intros Hall.
  assert (Hsame : forall el, In el arguments ->
                             required_no_default el = p_required el).
  { intros el Hin. rewrite Forall_forall in Hall. specialize (Hall el Hin).
    unfold required_no_default. destruct (p_required el); [|reflexivity].
    now rewrite Hall. }
  split; apply filter_ext_in; intros el Hin; now rewrite Hsame.
Qed.

(** the loop of [__to_code_properties] raises nothing that the rendering of
    the properties does not raise *)
Lemma to_code_properties_loop_Ok (properties : list ApiProperty)
    (blocks : list string) :
  mapM property_block properties = Ok blocks ->
  forall acc, exists lists, to_code_properties_loop properties acc = Ok lists.
Proof.
  revert blocks. induction properties as [|el rest IH]; intros blocks H acc.
  - now exists acc.
  - apply mapM_cons_Ok in H as (b & bs & Hel & Hrest & _).
    unfold property_block in Hel. simpl.
    destruct (ApiProperty_to_typehint true el) as [hint|e]; [|discriminate].
    destruct (to_doc_line el) as [doc|e]; [|discriminate].
    destruct (_ && _); simpl; eapply IH; eassumption.
Qed.

(** the Method Emitter looks at the [required] flag only: a required
    argument that carries a default is rendered with it in the first group,
    before a required argument that has none *)
Remark required_argument_with_default_stays_in_first_group :
  to_function_loop
    [ parse_ApiProperty "limit" "Limit" true
        (mkApiTypeInfo T_integer None None (PyInt 100) None None);
      parse_ApiProperty "offset" "Offset" true (primitive T_integer) ]
    no_lists
  = Ok {| args := ["limit: int = 100"; "offset: int"];
          args_opt := [];
          json_params := [ dq ++ "limit" ++ dq ++ ": limit";
                           dq ++ "offset" ++ dq ++ ": offset" ] |}.
Proof.
  reflexivity.
Qed.

(** * Further properties *)

(** ** Descriptions *)

Lemma has_char_append (c : ascii) (s t : string) :
  has_char c (s ++ t) = has_char c s || has_char c t.
Proof.
  induction s as [|d s IH]; simpl; [reflexivity|].
  now rewrite IH, orb_assoc.
Qed.

Lemma replace_char_removes (a : ascii) (b s : string) :
  has_char a b = false -> has_char a (replace_char a b s) = false.
Proof.
  intros Hb. induction s as [|c s IH]; simpl; [reflexivity|].
  rewrite has_char_append, IH, orb_false_r.
  destruct (Ascii.eqb c a) eqn:E; [exact Hb|].
  simpl. now rewrite E.
Qed.

Lemma replace_char_keeps_absent (c a : ascii) (b s : string) :
  has_char c b = false -> has_char c s = false ->
  has_char c (replace_char a b s) = false.
Proof.
  intros Hb. induction s as [|d s IH]; simpl; [reflexivity|].
  intros H. apply orb_false_iff in H as [Hd Hs].
  rewrite has_char_append, (IH Hs), orb_false_r.
  destruct (Ascii.eqb d a); [exact Hb|].
  simpl. now rewrite Hd.
Qed.

Lemma replace_char_absent (a : ascii) (b s : string) :
  has_char a s = false -> replace_char a b s = s.
Proof.
  induction s as [|c s IH]; simpl; [reflexivity|].
  intros H. apply orb_false_iff in H as [Hc Hs].
  now rewrite Hc, (IH Hs).
Qed.

Lemma replace_char_length (a c : ascii) (s : string) :
  String.length (replace_char a (String c EmptyString) s) = String.length s.
Proof.
  induction s as [|d s IH]; simpl; [reflexivity|].
  destruct (Ascii.eqb d a); simpl; now rewrite IH.
Qed.

Lemma remove_char_length (a : ascii) (s : string) :
  String.length (replace_char a EmptyString s) <= String.length s.
Proof.
  induction s as [|d s IH]; simpl; [lia|].
  destruct (Ascii.eqb d a); simpl; lia.
Qed.

Lemma validate_description_clean (value : string) :
  has_char "034"%char (validate_description value) = false
  /\ has_char "092"%char (validate_description value) = false.
Proof.
  unfold validate_description. split.
  - apply replace_char_keeps_absent; [reflexivity|].
    now apply replace_char_removes.
  - now apply replace_char_removes.
Qed.

Lemma validate_description_fixed (value : string) :
  has_char "034"%char value = false ->
  has_char "092"%char value = false ->
  validate_description value = value.
Proof.
  intros Hq Hb. unfold validate_description.
  now rewrite (replace_char_absent _ _ _ Hq), (replace_char_absent _ _ _ Hb).
Qed.

(** X1: a validated description holds no double quote and no backslash, so
    it cannot close the docstring it is put in, and it is never longer than
    the raw description. *)
Theorem validate_description_has_no_quote_no_backslash (value : string) :
  has_char "034"%char (validate_description value) = false
  /\ has_char "092"%char (validate_description value) = false
  /\ String.length (validate_description value) <= String.length value.
Proof.
  destruct (validate_description_clean value) as [Hq Hb].
  repeat split; trivial.
  unfold validate_description.
  etransitivity; [apply remove_char_length|].
  now rewrite replace_char_length.
Qed.

(** X2: the descriptions that validation leaves unchanged are exactly those
    without a double quote and without a backslash; validating twice is
    validating once. *)
Theorem validate_description_fixed_points (value : string) :
  (validate_description value = value
   <-> has_char "034"%char value = false /\ has_char "092"%char value = false)
  /\ validate_description (validate_description value)
     = validate_description value.
Proof.
  destruct (validate_description_clean value) as [Hq Hb].
  split; [split|].
  - intros H. now rewrite H in Hq, Hb.
  - intros [Hq' Hb']. now apply validate_description_fixed.
  - now apply validate_description_fixed.
Qed.

(** ** Names on the wire *)

Lemma reserved_names_end_without_underscore (raw : string) :
  reserved raw = true -> endswith_underscore raw = false.
Proof.
  destruct (validate_name_cases raw) as [[-> | [-> | ->]] | [Hr _]];
    try reflexivity.
  rewrite Hr. discriminate.
Qed.

(** X3: the payload key of an argument is its raw name exactly when the raw
    name does not end with an underscore: reserved names come back from their
    suffixed form, and a raw name that ends with an underscore loses it. *)
Theorem wire_key_is_raw_name_iff_no_trailing_underscore
    (raw description : string) (required : bool) (type_info : ApiTypeInfo) :
  wire_key (parse_ApiProperty raw description required type_info) = raw
  <-> endswith_underscore raw = false.
Proof.
  unfold wire_key, parse_ApiProperty. cbn [p_name].
  destruct (reserved raw) eqn:Hr.
  - rewrite (validate_name_reserved _ Hr), endswith_underscore_append,
      drop_last_append.
    split; [intros _|reflexivity].
    now apply reserved_names_end_without_underscore.
  - rewrite (validate_name_not_reserved _ Hr).
    destruct (endswith_underscore raw) eqn:He.
    + split; [|discriminate]. intros H. exfalso.
      apply (drop_last_shorter (endswith_underscore_nonempty He)), H.
    + split; reflexivity.
Qed.

(** the three values of the table, or a name that is none of them *)
Lemma reserved_python_cases (x : string) :
  (x = "from_" \/ x = "format_" \/ x = "type_")
  \/ existsb (String.eqb x) reserved_python = false.
Proof.
  cbv [reserved_python PythonReservedNames existsb map snd].
  destruct (String.eqb_spec x "from_") as [->|_]; [now left; left|].
  destruct (String.eqb_spec x "format_") as [->|_]; [now left; right; left|].
  destruct (String.eqb_spec x "type_") as [->|_]; [now left; right; right|].
  now right.
Qed.

(** X4: the alias that an emitted record declaration computes for the
    sanitized name of a property is the raw name, for every raw name but the
    three suffixed forms themselves ([from_], [format_], [type_]), whose alias
    loses the underscore. *)
Theorem alias_generator_restores_raw_name (raw : string) :
  alias_generator (validate_name raw) = raw
  <-> existsb (String.eqb raw) reserved_python = false.
Proof.
  destruct (validate_name_cases raw) as [[-> | [-> | ->]] | [_ Hv]].
  1-3: split; reflexivity.
  rewrite Hv. unfold alias_generator.
  destruct (reserved_python_cases raw) as [[-> | [-> | ->]] | Hx].
  1-3: split; discriminate.
  rewrite Hx. split; reflexivity.
Qed.

(** ** Callable identifiers *)

Lemma lower_char_not_upper (c : ascii) : is_upper (lower_char c) = false.
Proof.
  unfold lower_char. destruct (is_upper c) eqn:E; [|exact E].
  unfold is_upper in *. cbv zeta in *.
  apply andb_true_iff in E as [Hlo Hhi].
  apply Nat.leb_le in Hlo, Hhi.
  rewrite nat_ascii_embedding by lia.
  apply andb_false_iff. right. apply Nat.leb_gt. lia.
Qed.

Lemma lower_has_no_upper (s : string) : has_upper (lower s) = false.
Proof.
  induction s as [|c s IH]; simpl; [reflexivity|].
  now rewrite lower_char_not_upper, IH.
Qed.

Lemma lower_without_upper (s : string) : has_upper s = false -> lower s = s.
Proof.
  induction s as [|c s IH]; simpl; [reflexivity|].
  intros H. apply orb_false_iff in H as [Hc Hs].
  unfold lower_char. now rewrite Hc, (IH Hs).
Qed.

Lemma lower_length (s : string) : String.length (lower s) = String.length s.
Proof.
  induction s as [|c s IH]; simpl; [reflexivity | now rewrite IH].
Qed.

Lemma underscore_capitals_without_upper (s : string) :
  has_upper s = false -> underscore_capitals s = s.
Proof.
  induction s as [|c s IH]; simpl; [reflexivity|].
  intros H. apply orb_false_iff in H as [Hc Hs].
  now rewrite Hc, (IH Hs).
Qed.

Lemma underscore_capitals_length (s : string) :
  String.length (underscore_capitals s) = String.length s + count_upper s.
Proof.
  induction s as [|c s IH]; simpl; [reflexivity|].
  destruct (is_upper c); simpl; rewrite IH; lia.
Qed.

(** the substitution, from the start of the name *)
Lemma re_sub_from_start (name : string) :
  re_sub_from 0 name
  = match name with
    | EmptyString => EmptyString
    | String c rest => String c (underscore_capitals rest)
    end.
Proof.
  destruct name as [|c rest]; [reflexivity|].
  simpl. now rewrite re_sub_from_interior by discriminate.
Qed.

(** X5: a callable identifier holds no capital letter, and converting an
    identifier that is already converted changes nothing. *)
Theorem snake_case_name_lowercase_and_idempotent (name : string) :
  has_upper (snake_case_name name) = false
  /\ snake_case_name (snake_case_name name) = snake_case_name name.
Proof.
  assert (Hlow : has_upper (snake_case_name name) = false)
    by apply lower_has_no_upper.
  split; [exact Hlow|].
  set (id := snake_case_name name) in *.
  unfold snake_case_name at 1. rewrite re_sub_from_start.
  destruct id as [|c rest]; [reflexivity|].
  simpl in Hlow. apply orb_false_iff in Hlow as [Hc Hrest].
  rewrite (underscore_capitals_without_upper _ Hrest).
  apply lower_without_upper. simpl. now rewrite Hc, Hrest.
Qed.

(** ** Outcomes of type resolution *)

Lemma mapM_same_outcome {A B} (f g : A -> result B) (xs : list A) :
  Forall (fun x => same_outcome (f x) (g x)) xs ->
  same_outcome (mapM f xs) (mapM g xs).
Proof.
  induction 1 as [|x xs Hx _ IH]; simpl; [exact I|].
  destruct (f x) as [y|e], (g x) as [y'|e']; simpl in Hx; try contradiction;
    [|exact Hx].
  destruct (mapM f xs) as [ys|e], (mapM g xs) as [ys'|e']; simpl in IH |- *;
    trivial.
Qed.

Lemma same_outcome_bind_Ok {A B C D} (r1 : result A) (r2 : result B)
    (g1 : A -> C) (g2 : B -> D) :
  same_outcome r1 r2 ->
  same_outcome (x <- r1 ;; Ok (g1 x)) (x <- r2 ;; Ok (g2 x)).
Proof.
  destruct r1, r2; simpl; trivial.
Qed.

(** the reference mode changes how a reference is written, not whether
    resolution raises, nor what it raises *)
Lemma to_typehint_same_outcome (t : ApiTypeInfo) :
  same_outcome (ApiTypeInfo_to_typehint true t)
               (ApiTypeInfo_to_typehint false t).
Proof.
  induction t as [ty en rf df ar ao IHar IHao] using ApiTypeInfo_nested_ind.
  destruct ty; try (cbn; trivial; fail).
  - destruct rf as [[|c name]|]; cbn; trivial.
  - destruct ao as [[|alt alts]|]; try (cbn; trivial; fail).
    cbn [ApiTypeInfo_to_typehint ti_type ti_any_of ti_array ti_reference].
    apply same_outcome_bind_Ok. now apply mapM_same_outcome.
  - destruct ar as [elem|]; try (cbn; trivial; fail).
    cbn [ApiTypeInfo_to_typehint ti_type ti_any_of ti_array ti_reference].
    now apply same_outcome_bind_Ok.
Qed.

Lemma mapM_Ok_Forall {A B} (f : A -> result B) (P : A -> Prop)
    (xs : list A) (ys : list B) :
  Forall (fun x => forall y, f x = Ok y -> P x) xs ->
  mapM f xs = Ok ys -> Forall P xs.
Proof.
  intros Hall. revert ys. induction Hall as [|x xs Hx _ IH]; intros ys H;
    [constructor|].
  apply mapM_cons_Ok in H as (y & ys' & Hy & Hys & _).
  constructor; [exact (Hx y Hy) | exact (IH ys' Hys)].
Qed.

Ltac typehint_step :=
  cbn [ApiTypeInfo_to_typehint ti_type ti_any_of ti_array ti_reference rbind]
    in *.

(** a descriptor that resolves is a tree of recognized variants *)
Lemma resolves_recognized (ref_str : bool) (t : ApiTypeInfo) :
  forall s, ApiTypeInfo_to_typehint ref_str t = Ok s -> recognized t = true.
Proof.
  induction t as [ty en rf df ar ao IHar IHao] using ApiTypeInfo_nested_ind.
  intros s H. destruct ty; try reflexivity; try discriminate H.
  - destruct rf as [[|c name]|]; trivial; discriminate H.
  - destruct ao as [[|alt alts]|]; try discriminate H.
    typehint_step.
    destruct (mapM (ApiTypeInfo_to_typehint ref_str) (alt :: alts))
      as [hints|e] eqn:E; [|discriminate H].
    change (forallb recognized (alt :: alts) = true).
    apply forallb_forall. apply Forall_forall.
    exact (mapM_Ok_Forall _ _ IHao E).
  - destruct ar as [elem|]; [|discriminate H].
    typehint_step.
    destruct (ApiTypeInfo_to_typehint ref_str elem) as [inner|e] eqn:E;
      [|discriminate H].
    exact (IHar inner eq_refl).
Qed.

Lemma mapM_Err_In {A B} (f : A -> result B) (xs : list A) (e : exn) :
  mapM f xs = Err e -> exists x, In x xs /\ f x = Err e.
Proof.
  induction xs as [|x xs IH]; simpl; [discriminate|].
  destruct (f x) as [y|e1] eqn:E.
  - destruct (mapM f xs) as [ys|e2]; [discriminate|].
    intros [= <-]. destruct (IH eq_refl) as (x' & Hin & Hx').
    exists x'. auto.
  - intros [= <-]. exists x. auto.
Qed.

(** the only exception of resolution is the [KeyError] of a failed lookup
    in [JsonToPythonTypes] *)
Lemma to_typehint_Err_kind (ref_str : bool) (t : ApiTypeInfo) :
  forall e, ApiTypeInfo_to_typehint ref_str t = Err e ->
            exists kind, In kind raising_kinds /\ e = KeyError kind.
Proof.
  induction t as [ty en rf df ar ao IHar IHao] using ApiTypeInfo_nested_ind.
  intros e H. destruct ty; try discriminate H.
  - injection H as <-. exists "properties". split; [simpl; tauto | reflexivity].
  - destruct rf as [[|c name]|]; try (destruct ref_str; discriminate H);
      injection H as <-; exists "reference";
      (split; [simpl; tauto | reflexivity]).
  - destruct ao as [[|alt alts]|];
      try (injection H as <-; exists "any_of";
           split; [simpl; tauto | reflexivity]).
    typehint_step.
    destruct (mapM (ApiTypeInfo_to_typehint ref_str) (alt :: alts))
      as [hints|e'] eqn:E; [discriminate H|].
    injection H as <-.
    apply mapM_Err_In in E as (x & Hin & Hx).
    rewrite Forall_forall in IHao. exact (IHao x Hin e' Hx).
  - destruct ar as [elem|];
      [|injection H as <-; exists "array";
        split; [simpl; tauto | reflexivity]].
    typehint_step.
    destruct (ApiTypeInfo_to_typehint ref_str elem) as [inner|e'] eqn:E;
      [discriminate H|].
    injection H as <-. exact (IHar e' eq_refl).
Qed.

Lemma mapM_ext_Forall {A B} (f g : A -> result B) (xs : list A) :
  Forall (fun x => f x = g x) xs -> mapM f xs = mapM g xs.
Proof.
  induction 1 as [|x xs Hx _ IH]; simpl; [reflexivity|].
  now rewrite Hx, IH.
Qed.

(** without a node of kind [reference] the two modes give the same result *)
Lemma to_typehint_without_reference (t : ApiTypeInfo) :
  mentions_reference t = false ->
  ApiTypeInfo_to_typehint true t = ApiTypeInfo_to_typehint false t.
Proof.
  induction t as [ty en rf df ar ao IHar IHao] using ApiTypeInfo_nested_ind.
  intros H. destruct ty; try reflexivity; try discriminate H.
  - destruct ao as [[|alt alts]|]; try reflexivity.
    typehint_step.
    assert (E : mapM (ApiTypeInfo_to_typehint true) (alt :: alts)
                = mapM (ApiTypeInfo_to_typehint false) (alt :: alts)).
    { apply mapM_ext_Forall. rewrite Forall_forall in IHao |- *.
      intros x Hin. apply (IHao x Hin).
      destruct (mentions_reference x) eqn:Ex; [|reflexivity].
      change (existsb mentions_reference (alt :: alts) = false) in H.
      rewrite <- H. symmetry. apply existsb_exists. now exists x. }
    now rewrite E.
  - destruct ar as [elem|]; try reflexivity.
    typehint_step. now rewrite (IHar H).
Qed.

(** X7: whether resolution returns or raises, and the exception it raises,
    do not depend on the reference mode: an emitter that has resolved a
    descriptor in one mode cannot fail on it in the other. *)
Theorem to_typehint_outcome_is_mode_independent (t : ApiTypeInfo) :
  same_outcome (ApiTypeInfo_to_typehint true t)
               (ApiTypeInfo_to_typehint false t)
  /\ ((exists s, ApiTypeInfo_to_typehint true t = Ok s)
      <-> (exists s, ApiTypeInfo_to_typehint false t = Ok s))
  /\ (forall e, ApiTypeInfo_to_typehint true t = Err e
                <-> ApiTypeInfo_to_typehint false t = Err e).
Proof.
  pose proof (to_typehint_same_outcome t) as H.
  split; [exact H|].
  destruct (ApiTypeInfo_to_typehint true t) as [s1|e1],
           (ApiTypeInfo_to_typehint false t) as [s2|e2];
    simpl in H; try contradiction.
  - split; [split; intros _; eauto|].
    intros e. split; discriminate.
  - subst e2. split; [split; intros [s Hs]; discriminate Hs|].
    intros e. split; trivial.
Qed.

(** X8: resolution returns a string exactly on the trees of recognized
    variants, in either mode; on any other tree it raises. *)
Theorem to_typehint_returns_iff_recognized (ref_str : bool) (t : ApiTypeInfo) :
  (exists s, ApiTypeInfo_to_typehint ref_str t = Ok s) <-> recognized t = true.
Proof.
  split.
  - intros [s Hs]. exact (resolves_recognized ref_str t Hs).
  - apply recognized_resolves.
Qed.

(** X9: resolution raises nothing but [KeyError], and only on the name of
    one of the kinds [properties], [reference], [any_of], [array]. *)
Theorem to_typehint_raises_only_KeyError
    (ref_str : bool) (t : ApiTypeInfo) (e : exn) :
  ApiTypeInfo_to_typehint ref_str t = Err e ->
  exists kind, In kind raising_kinds /\ e = KeyError kind.
Proof.
  apply to_typehint_Err_kind.
Qed.

Lemma to_typehint_raises_only_KeyError_witness :
  ApiTypeInfo_to_typehint true
    (mkApiTypeInfo T_array None None PyNone
       (Some (mkApiTypeInfo T_reference None None PyNone None None)) None)
  = Err (KeyError "reference")
  /\ exists kind, In kind raising_kinds /\ KeyError "reference" = KeyError kind.
Proof.
  split; [reflexivity|].
  exact (@to_typehint_raises_only_KeyError true
           (mkApiTypeInfo T_array None None PyNone
              (Some (mkApiTypeInfo T_reference None None PyNone None None))
              None)
           (KeyError "reference") eq_refl).
Defined.

(** X10: a tree without a node of kind [reference] resolves to the same
    result in forward-reference mode and in direct-reference mode. *)
Theorem to_typehint_modes_agree_without_reference (t : ApiTypeInfo) :
  mentions_reference t = false ->
  ApiTypeInfo_to_typehint true t = ApiTypeInfo_to_typehint false t.
Proof.
  apply to_typehint_without_reference.
Qed.

Lemma to_typehint_modes_agree_without_reference_witness :
  ApiTypeInfo_to_typehint true
    (mkApiTypeInfo T_array None None PyNone (Some (primitive T_integer)) None)
  = ApiTypeInfo_to_typehint false
      (mkApiTypeInfo T_array None None PyNone (Some (primitive T_integer)) None).
Proof.
  exact (@to_typehint_modes_agree_without_reference
           (mkApiTypeInfo T_array None None PyNone
              (Some (primitive T_integer)) None) eq_refl).
Defined.

(** ** Outcomes of the Method Emitter *)

Lemma same_outcome_Ok {A B} (r1 : result A) (r2 : result B) :
  same_outcome r1 r2 ->
  (exists a, r1 = Ok a) <-> (exists b, r2 = Ok b).
Proof.
  destruct r1, r2; simpl; intros H; try contradiction;
    split; intros [x Hx]; try discriminate; eauto.
Qed.

Lemma same_outcome_Err {A B} (r1 : result A) (r2 : result B) (e : exn) :
  same_outcome r1 r2 -> r1 = Err e -> r2 = Err e.
Proof.
  destruct r1, r2; simpl; intros H; try contradiction; try discriminate.
  intros [= <-]. now subst.
Qed.

(** a property is rendered exactly when its descriptor resolves, and raises
    what the descriptor raises *)
Lemma property_typehint_outcome (ref_str : bool) (el : ApiProperty) :
  same_outcome (ApiProperty_to_typehint ref_str el)
               (ApiTypeInfo_to_typehint ref_str (p_type_info el)).
Proof.
  unfold ApiProperty_to_typehint.
  destruct (negb (p_required el));
    destruct (ApiTypeInfo_to_typehint ref_str (p_type_info el)); simpl; trivial.
Qed.

Lemma doc_line_outcome (el : ApiProperty) :
  same_outcome (to_doc_line el)
               (ApiTypeInfo_to_typehint true (p_type_info el)).
Proof.
  unfold to_doc_line.
  destruct (ApiTypeInfo_to_typehint true (p_type_info el)); simpl; trivial.
Qed.

Lemma property_typehint_Ok_iff (ref_str : bool) (el : ApiProperty) :
  (exists hint, ApiProperty_to_typehint ref_str el = Ok hint)
  <-> resolvable el = true.
Proof.
  rewrite (@same_outcome_Ok _ _ _ _ (property_typehint_outcome ref_str el)).
  split.
  - intros [s Hs]. exact (resolves_recognized _ _ Hs).
  - apply recognized_resolves.
Qed.

Lemma doc_line_Ok_iff (el : ApiProperty) :
  (exists doc, to_doc_line el = Ok doc) <-> resolvable el = true.
Proof.
  rewrite (@same_outcome_Ok _ _ _ _ (doc_line_outcome el)).
  split.
  - intros [s Hs]. exact (resolves_recognized _ _ Hs).
  - apply recognized_resolves.
Qed.

Lemma property_typehint_Err_kind (ref_str : bool) (el : ApiProperty) (e : exn) :
  ApiProperty_to_typehint ref_str el = Err e ->
  exists kind, In kind raising_kinds /\ e = KeyError kind.
Proof.
  intros H.
  apply (@same_outcome_Err _ _ _ _ _ (property_typehint_outcome ref_str el)) in H.
  exact (to_typehint_Err_kind _ _ H).
Qed.

Lemma doc_line_Err_kind (el : ApiProperty) (e : exn) :
  to_doc_line el = Err e ->
  exists kind, In kind raising_kinds /\ e = KeyError kind.
Proof.
  intros H. apply (@same_outcome_Err _ _ _ _ _ (doc_line_outcome el)) in H.
  exact (to_typehint_Err_kind _ _ H).
Qed.

Lemma mapM_Ok_iff {A B} (f : A -> result B) (xs : list A) :
  (exists ys, mapM f xs = Ok ys) <-> Forall (fun x => exists y, f x = Ok y) xs.
Proof.
  split.
  - intros [ys H]. revert ys H. induction xs as [|x xs IH]; intros ys H;
      [constructor|].
    apply mapM_cons_Ok in H as (y & ys' & Hy & Hys & _).
    constructor; eauto.
  - induction 1 as [|x xs [y Hy] _ [ys Hys]]; [now exists []|].
    exists (y :: ys). simpl. now rewrite Hy, Hys.
Qed.

Lemma Forall_filter {A} (P : A -> Prop) (p : A -> bool) (xs : list A) :
  Forall P xs -> Forall P (filter p xs).
Proof.
  rewrite !Forall_forall. intros H x Hin.
  apply filter_In in Hin as [Hin _]. auto.
Qed.

(** the loop of [to_function] returns exactly when every argument is
    rendered *)
Lemma to_function_loop_Ok_Forall (arguments : list ApiProperty) :
  forall acc lists,
    to_function_loop arguments acc = Ok lists ->
    Forall (fun el => exists hint, ApiProperty_to_typehint false el = Ok hint)
           arguments.
Proof.
  induction arguments as [|el rest IH]; intros acc lists H; [constructor|].
  simpl in H.
  destruct (p_required el);
    (destruct (ApiProperty_to_typehint false el) as [hint|e] eqn:E;
     [|discriminate H]);
    simpl in H; constructor; eauto.
Qed.

Lemma to_function_loop_inv (arguments : list ApiProperty) (lists : fn_lists) :
  to_function_loop arguments no_lists = Ok lists ->
  mapM (ApiProperty_to_typehint false) (filter p_required arguments)
    = Ok (args lists)
  /\ mapM (ApiProperty_to_typehint false)
          (filter (fun el => negb (p_required el)) arguments)
     = Ok (args_opt lists)
  /\ json_params lists = map json_param arguments.
Proof.
  intros H.
  pose proof (to_function_loop_Ok_Forall _ _ H) as Hall.
  destruct (proj2 (mapM_Ok_iff _ _) (Forall_filter p_required Hall))
    as [req Hreq].
  destruct (proj2 (mapM_Ok_iff _ _)
              (Forall_filter (fun el => negb (p_required el)) Hall))
    as [opt Hopt].
  rewrite (to_function_loop_groups arguments no_lists Hreq Hopt) in H.
  injection H as <-. now rewrite Hreq, Hopt.
Qed.

Lemma to_function_loop_Err_In (arguments : list ApiProperty) (e : exn) :
  forall acc,
    to_function_loop arguments acc = Err e ->
    exists el, In el arguments /\ ApiProperty_to_typehint false el = Err e.
Proof.
  induction arguments as [|el rest IH]; intros acc H; [discriminate H|].
  simpl in H.
  destruct (p_required el);
    (destruct (ApiProperty_to_typehint false el) as [hint|e'] eqn:E;
     [simpl in H; apply IH in H as (x & Hin & Hx); exists x; simpl; auto
     |injection H as <-; exists el; simpl; auto]).
Qed.

Lemma final_args_with_marker (lists : fn_lists) :
  final_args lists = with_marker (args lists) (args_opt lists).
Proof.
  unfold final_args, with_marker.
  destruct (args_opt lists); [reflexivity | now rewrite <- app_assoc].
Qed.

Lemma to_function_Ok_iff (m : ApiMethod) :
  (exists text, to_function m = Ok text) <-> callable m = true.
Proof.
  unfold callable. rewrite andb_true_iff, forallb_forall. split.
  - intros [text H]. unfold to_function in H.
    destruct (to_function_loop (m_arguments m) no_lists) as [lists|e] eqn:Hl;
      [|discriminate H].
    cbn [rbind] in H.
    destruct (ApiTypeInfo_to_typehint false (m_return_type m)) as [r|e] eqn:Hr;
      [|discriminate H].
    split; [exact (resolves_recognized _ _ Hr)|].
    intros el Hin. apply (property_typehint_Ok_iff false).
    pose proof (to_function_loop_Ok_Forall _ _ Hl) as Hall.
    rewrite Forall_forall in Hall. auto.
  - intros [Hret Hargs].
    assert (Hall : Forall (fun el => exists hint,
                     ApiProperty_to_typehint false el = Ok hint)
                     (m_arguments m)).
    { apply Forall_forall. intros el Hin.
      apply property_typehint_Ok_iff. auto. }
    destruct (proj2 (mapM_Ok_iff _ _) (Forall_filter p_required Hall))
      as [req Hreq].
    destruct (proj2 (mapM_Ok_iff _ _)
                (Forall_filter (fun el => negb (p_required el)) Hall))
      as [opt Hopt].
    assert (Hdocs : exists docs, mapM to_doc_line (m_arguments m) = Ok docs).
    { apply mapM_Ok_iff, Forall_forall. intros el Hin.
      apply doc_line_Ok_iff. auto. }
    destruct Hdocs as [docs Hdocs].
    destruct (recognized_resolves false _ Hret) as [r Hr].
    unfold to_function.
    rewrite (to_function_loop_groups _ no_lists Hreq Hopt), Hr, Hdocs.
    eexists. reflexivity.
Qed.

(** X11: the Method Emitter returns a text exactly when the return type
    and the type of every argument are trees of recognized variants;
    otherwise it raises. *)
Theorem to_function_returns_iff_callable (m : ApiMethod) :
  ((exists text, to_function m = Ok text) <-> callable m = true)
  /\ ((exists e, to_function m = Err e) <-> callable m = false).
Proof.
  pose proof (to_function_Ok_iff m) as H.
  split; [exact H|].
  destruct (to_function m) as [text|e].
  - assert (Hc : callable m = true) by (apply H; eauto).
    rewrite Hc. split; [intros [e He] | intros He]; discriminate He.
  - destruct (callable m).
    + destruct (proj2 H eq_refl) as [text Ht]. discriminate Ht.
    + split; eauto.
Qed.

(** X12: a text returned by the Method Emitter is the template filled with:
    the parameters of the arguments flagged required, in their order, then,
    when some argument is not, the marker [*] and the parameters of the
    others in their order; one payload entry per argument, in the order of
    the arguments; one documentation line per argument, in that order. *)
Theorem to_function_text_shape (m : ApiMethod) (text : string) :
  to_function m = Ok text ->
  exists req opt return_typehint doc_args,
    mapM (ApiProperty_to_typehint false) (filter p_required (m_arguments m))
      = Ok req
    /\ mapM (ApiProperty_to_typehint false)
            (filter (fun el => negb (p_required el)) (m_arguments m))
       = Ok opt
    /\ ApiTypeInfo_to_typehint false (m_return_type m) = Ok return_typehint
    /\ mapM to_doc_line (m_arguments m) = Ok doc_args
    /\ List.length doc_args = List.length (m_arguments m)
    /\ text
       = function_text
           (snake_case_name (m_name m))
           (m_description m)
           (m_name m)
           ("{" ++ join ("," ++ nl ++ "                ")
                        (map json_param (m_arguments m)) ++ "}")
           (match with_marker req opt with
            | [] => EmptyString
            | _ :: _ => ", "
            end)
           (join ", " (with_marker req opt))
           return_typehint
           (join (nl ++ "            ") doc_args).
Proof.
  intros H. unfold to_function in H.
  destruct (to_function_loop (m_arguments m) no_lists) as [lists|e] eqn:Hl;
    [|discriminate H].
  cbn [rbind] in H.
  destruct (ApiTypeInfo_to_typehint false (m_return_type m)) as [r|e] eqn:Hr;
    [|discriminate H].
  cbn [rbind] in H.
  destruct (mapM to_doc_line (m_arguments m)) as [docs|e] eqn:Hd;
    [|discriminate H].
  cbn [rbind] in H. injection H as <-.
  destruct (to_function_loop_inv _ Hl) as (Hreq & Hopt & Hjson).
  exists (args lists), (args_opt lists), r, docs.
  repeat split; trivial.
  - apply mapM_Forall2 in Hd. symmetry. exact (Forall2_length Hd).
  - now rewrite Hjson, final_args_with_marker.
Qed.

Lemma to_function_text_shape_witness :
  exists req opt return_typehint doc_args,
    mapM (ApiProperty_to_typehint false)
         (filter p_required (sendMessage_arguments "Chat" "Text" "Reply"))
      = Ok req
    /\ mapM (ApiProperty_to_typehint false)
            (filter (fun el => negb (p_required el))
                    (sendMessage_arguments "Chat" "Text" "Reply"))
       = Ok opt
    /\ ApiTypeInfo_to_typehint false (reference_to "Message")
       = Ok return_typehint
    /\ mapM to_doc_line (sendMessage_arguments "Chat" "Text" "Reply")
       = Ok doc_args
    /\ List.length doc_args = 3.
Proof.
  destruct (@to_function_text_shape
              (parse_ApiMethod "sendMessage" "Send a text message"
                 (sendMessage_arguments "Chat" "Text" "Reply") false
                 (reference_to "Message"))
              _ eq_refl)
    as (req & opt & r & docs & H1 & H2 & H3 & H4 & H5 & _).
  exists req, opt, r, docs. repeat split; assumption.
Defined.

Lemma to_function_Err_kind (m : ApiMethod) (e : exn) :
  to_function m = Err e ->
  exists kind, In kind raising_kinds /\ e = KeyError kind.
Proof.
  intros H. unfold to_function in H.
  destruct (to_function_loop (m_arguments m) no_lists) as [lists|e1] eqn:Hl.
  - cbn [rbind] in H.
    destruct (ApiTypeInfo_to_typehint false (m_return_type m))
      as [r|e2] eqn:Hr.
    + cbn [rbind] in H.
      destruct (mapM to_doc_line (m_arguments m)) as [docs|e3] eqn:Hd;
        [discriminate H|].
      injection H as <-. apply mapM_Err_In in Hd as (el & _ & Hel).
      exact (doc_line_Err_kind _ Hel).
    + injection H as <-. exact (to_typehint_Err_kind _ _ Hr).
  - injection H as <-. apply to_function_loop_Err_In in Hl as (el & _ & Hel).
    exact (property_typehint_Err_kind _ _ Hel).
Qed.

(** X13: the Method Emitter raises nothing but the [KeyError] of type
    resolution, on the name of one of the kinds [properties], [reference],
    [any_of], [array]. *)
Theorem to_function_raises_only_KeyError (m : ApiMethod) (e : exn) :
  to_function m = Err e ->
  exists kind, In kind raising_kinds /\ e = KeyError kind.
Proof.
  apply to_function_Err_kind.
Qed.

Lemma to_function_raises_only_KeyError_witness :
  exists kind, In kind raising_kinds /\ KeyError "array" = KeyError kind.
Proof.
  exact (@to_function_raises_only_KeyError
           (parse_ApiMethod "getUpdates" "Receive incoming updates" [] false
              (mkApiTypeInfo T_array None None PyNone None None))
           (KeyError "array") eq_refl).
Defined.

(** ** Outcomes of the Object Emitter *)

Lemma property_block_outcome (el : ApiProperty) :
  same_outcome (property_block el)
               (ApiTypeInfo_to_typehint true (p_type_info el)).
Proof.
  unfold property_block.
  pose proof (property_typehint_outcome true el) as H1.
  pose proof (doc_line_outcome el) as H2.
  destruct (ApiProperty_to_typehint true el) as [hint|e1],
           (to_doc_line el) as [doc|e2],
           (ApiTypeInfo_to_typehint true (p_type_info el)) as [s|e3];
    simpl in *; trivial; contradiction.
Qed.

Lemma property_block_Ok_iff (el : ApiProperty) :
  (exists block, property_block el = Ok block) <-> resolvable el = true.
Proof.
  rewrite (@same_outcome_Ok _ _ _ _ (property_block_outcome el)).
  split.
  - intros [s Hs]. exact (resolves_recognized _ _ Hs).
  - apply recognized_resolves.
Qed.

(** the loop of [__to_code_properties] returns or raises as the rendering
    of the properties does *)
Lemma to_code_properties_loop_outcome (properties : list ApiProperty) :
  forall acc,
    same_outcome (to_code_properties_loop properties acc)
                 (mapM property_block properties).
Proof.
  induction properties as [|el rest IH]; intros acc; [exact I|].
  simpl. unfold property_block at 1.
  destruct (_ && _);
    (destruct (ApiProperty_to_typehint true el) as [hint|e1]; simpl; trivial);
    (destruct (to_doc_line el) as [doc|e2]; simpl; trivial);
    match goal with
    | |- same_outcome (to_code_properties_loop rest ?a) _ =>
        specialize (IH a);
        destruct (to_code_properties_loop rest a),
                 (mapM property_block rest); simpl in *; trivial
    end.
Qed.

Lemma to_code_properties_skips_loop (self : ApiObject)
    (properties : list ApiProperty) :
  o_properties self = Some properties ->
  properties <> [] ->
  to_code_properties self
  = (blocks <- mapM property_block properties ;;
     Ok (class_text (o_name self) (o_description self)
           (o_documentation_link self) (join (nl ++ "    ") blocks))).
Proof.
  intros Hprops Hne. unfold to_code_properties. rewrite Hprops.
  destruct properties as [|p ps]; [now contradiction Hne|].
  pose proof (to_code_properties_loop_outcome (p :: ps)
                {| typehints := []; typehints_optional := [];
                   vars_init := []; doc_lines := [] |}) as H.
  destruct (to_code_properties_loop (p :: ps) _) as [lists|e1],
           (mapM property_block (p :: ps)) as [blocks|e2];
    simpl in H |- *; try contradiction; [reflexivity | now subst].
Qed.

(** X14: the declaration of a record with at least one property is the
    class template filled from the properties in their order, and it raises
    exactly what the rendering of the first failing property raises: the
    loop that sorts the rendered properties into required and optional ones
    has no effect on the outcome. *)
Theorem record_declaration_ignores_partition_loop
    (self : ApiObject) (properties : list ApiProperty) :
  o_type self = T_properties ->
  o_properties self = Some properties ->
  properties <> [] ->
  to_code self
  = ([], blocks <- mapM property_block properties ;;
         Ok (class_text (o_name self) (o_description self)
               (o_documentation_link self) (join (nl ++ "    ") blocks))).
Proof.
  intros Hkind Hprops Hne. unfold to_code. rewrite Hkind.
  unfold glift. now rewrite (to_code_properties_skips_loop _ Hprops Hne).
Qed.

Lemma record_declaration_ignores_partition_loop_witness :
  to_code Update
  = ([], blocks <- mapM property_block Update_properties ;;
         Ok (class_text "Update" "An incoming update"
               "https://core.telegram.org/bots/api/#update"
               (join (nl ++ "    ") blocks))).
Proof.
  apply (@record_declaration_ignores_partition_loop Update Update_properties).
  - reflexivity.
  - reflexivity.
  - discriminate.
Defined.

(** X15: a record whose properties are missing or empty and a union whose
    alternatives are missing or empty raise [ValueError], whatever the other
    fields of the object hold, and print nothing. *)
Theorem empty_object_raises_ValueError (self : ApiObject) :
  (o_type self = T_properties ->
   o_properties self = None \/ o_properties self = Some [] ->
   to_code self = ([], Err (ValueError "can not parse properties")))
  /\ (o_type self = T_any_of ->
      o_any_of self = None \/ o_any_of self = Some [] ->
      to_code self = ([], Err (ValueError "can not parse any_of"))).
Proof.
  split; intros Hkind [H | H]; unfold to_code, to_code_properties,
    to_code_any_of; now rewrite Hkind, H.
Qed.

Lemma empty_object_raises_ValueError_witness :
  to_code (mkApiObject "Empty" "No property" T_properties
             "https://core.telegram.org/bots/api/#empty" (Some [])
             (Some [primitive T_integer]))
  = ([], Err (ValueError "can not parse properties")).
Proof.
  apply (proj1 (empty_object_raises_ValueError
                  (mkApiObject "Empty" "No property" T_properties
                     "https://core.telegram.org/bots/api/#empty" (Some [])
                     (Some [primitive T_integer])))).
  - reflexivity.
  - now right.
Defined.

Lemma to_code_Ok_iff (self : ApiObject) :
  (exists text, snd (to_code self) = Ok text) <-> renderable self = true.
Proof.
  unfold to_code, renderable.
  destruct (o_type self) eqn:Hkind; cbn [snd glift gret gbind print2 fst];
    try (split; [reflexivity | intros _; eexists; reflexivity]).
  - (* properties *)
    destruct (o_properties self) as [[|p ps]|] eqn:Hprops.
    + unfold to_code_properties. rewrite Hprops.
      split; [intros [t Ht]; discriminate Ht | discriminate].
    + rewrite (to_code_properties_skips_loop _ Hprops) by discriminate.
      rewrite forallb_forall.
      split.
      * intros [text H].
        destruct (mapM property_block (p :: ps)) as [blocks|e] eqn:E;
          [|discriminate H].
        assert (Hall : exists bs, mapM property_block (p :: ps) = Ok bs)
          by eauto.
        apply mapM_Ok_iff in Hall. rewrite Forall_forall in Hall.
        intros el Hin. apply property_block_Ok_iff. auto.
      * intros Hall.
        assert (Hb : exists bs, mapM property_block (p :: ps) = Ok bs).
        { apply mapM_Ok_iff, Forall_forall. intros el Hin.
          apply property_block_Ok_iff. auto. }
        destruct Hb as [bs ->]. eexists. reflexivity.
    + unfold to_code_properties. rewrite Hprops.
      split; [intros [t Ht]; discriminate Ht | discriminate].
  - (* any_of *)
    unfold to_code_any_of.
    destruct (o_any_of self) as [[|a l]|] eqn:Hany;
      try (split; [intros [t Ht]; discriminate Ht | discriminate]).
    rewrite forallb_forall. split.
    + intros [text H].
      destruct (mapM (ApiTypeInfo_to_typehint true) (a :: l))
        as [hints|e] eqn:E; [|discriminate H].
      assert (Hall : exists hs,
                mapM (ApiTypeInfo_to_typehint true) (a :: l) = Ok hs) by eauto.
      apply mapM_Ok_iff in Hall. rewrite Forall_forall in Hall.
      intros t Hin. destruct (Hall t Hin) as [s Hs].
      exact (resolves_recognized _ _ Hs).
    + intros Hall.
      assert (Hh : exists hs,
                mapM (ApiTypeInfo_to_typehint true) (a :: l) = Ok hs).
      { apply mapM_Ok_iff, Forall_forall. intros t Hin.
        apply recognized_resolves. auto. }
      destruct Hh as [hs ->]. eexists. reflexivity.
Qed.

(** X16: the Object Emitter returns a text exactly for a record with at
    least one property whose types are all trees of recognized variants, for
    a union with at least one alternative, all recognized, and for an object
    of any other kind; otherwise it raises. *)
Theorem to_code_returns_iff_renderable (self : ApiObject) :
  (exists text, snd (to_code self) = Ok text) <-> renderable self = true.
Proof.
  apply to_code_Ok_iff.
Qed.

(** what [to_code] prints *)
Lemma to_code_stdout (self : ApiObject) :
  fst (to_code self)
  = if emission_kind (o_type self) then [] else [diagnostic self].
Proof.
  unfold to_code. now destruct (o_type self).
Qed.

Lemma to_code_Err_emission_kind (self : ApiObject) (e : exn) :
  snd (to_code self) = Err e -> emission_kind (o_type self) = true.
Proof.
  unfold to_code. destruct (o_type self); trivial; discriminate.
Qed.

(** X17: the Object Emitter raises nothing but [ValueError] with one of its
    two messages, for an object without properties or alternatives, and the
    [KeyError] of type resolution; an object that raises prints nothing. *)
Theorem to_code_raises_only_ValueError_KeyError (self : ApiObject) (e : exn) :
  snd (to_code self) = Err e ->
  (e = ValueError "can not parse properties"
   \/ e = ValueError "can not parse any_of"
   \/ exists kind, In kind raising_kinds /\ e = KeyError kind)
  /\ fst (to_code self) = [].
Proof.
  intros H. split.
  - unfold to_code in H.
    destruct (o_type self) eqn:Hkind; cbn [snd glift gret gbind print2] in H;
      try discriminate H.
    + destruct (o_properties self) as [[|p ps]|] eqn:Hprops.
      * unfold to_code_properties in H. rewrite Hprops in H.
        injection H as <-. now left.
      * rewrite (to_code_properties_skips_loop _ Hprops) in H by discriminate.
        destruct (mapM property_block (p :: ps)) as [blocks|e'] eqn:E;
          [discriminate H|].
        injection H as <-. right. right.
        apply mapM_Err_In in E as (el & _ & Hel).
        apply (@same_outcome_Err _ _ _ _ _ (property_block_outcome el)) in Hel.
        exact (to_typehint_Err_kind _ _ Hel).
      * unfold to_code_properties in H. rewrite Hprops in H.
        injection H as <-. now left.
    + unfold to_code_any_of in H.
      destruct (o_any_of self) as [[|a l]|];
        try (injection H as <-; right; now left).
      destruct (mapM (ApiTypeInfo_to_typehint true) (a :: l))
        as [hints|e'] eqn:E; [discriminate H|].
      injection H as <-. right. right.
      apply mapM_Err_In in E as (t & _ & Ht).
      exact (to_typehint_Err_kind _ _ Ht).
  - rewrite to_code_stdout. now rewrite (to_code_Err_emission_kind _ H).
Qed.

Lemma to_code_raises_only_ValueError_KeyError_witness :
  fst (to_code (mkApiObject "Broken" "A broken record" T_properties
                  "https://core.telegram.org/bots/api/#broken"
                  (Some [parse_ApiProperty "items" "Items" true
                           (mkApiTypeInfo T_array None None PyNone None None)])
                  None))
  = [].
Proof.
  exact (proj2 (@to_code_raises_only_ValueError_KeyError
                  (mkApiObject "Broken" "A broken record" T_properties
                     "https://core.telegram.org/bots/api/#broken"
                     (Some [parse_ApiProperty "items" "Items" true
                              (mkApiTypeInfo T_array None None PyNone None
                                 None)])
                     None)
                  (KeyError "array") eq_refl)).
Defined.

(** ** The Schema Aggregator *)

Lemma join_app (sep : string) (xs ys : list string) :
  xs <> [] -> ys <> [] ->
  join sep (xs ++ ys) = join sep xs ++ sep ++ join sep ys.
Proof.
  intros Hxs Hys. induction xs as [|x xs IH]; [now contradiction Hxs|].
  destruct xs as [|x' xs'].
  - simpl. destruct ys; [now contradiction Hys | reflexivity].
  - change (join sep ((x :: x' :: xs') ++ ys))
      with (x ++ sep ++ join sep ((x' :: xs') ++ ys)).
    rewrite IH by discriminate.
    change (join sep (x :: x' :: xs')) with (x ++ sep ++ join sep (x' :: xs')).
    now rewrite !append_assoc.
Qed.

Lemma gen_mapM_cons_Ok {A B} (f : A -> Gen B) (x : A) (xs : list A)
    (out : list string) (ys : list B) :
  gen_mapM f (x :: xs) = (out, Ok ys) ->
  exists o1 y o2 ys',
    f x = (o1, Ok y) /\ gen_mapM f xs = (o2, Ok ys')
    /\ out = (o1 ++ o2)%list /\ ys = y :: ys'.
Proof.
  simpl. unfold gbind, gret.
  destruct (f x) as [o1 [y|e]]; [|discriminate].
  destruct (gen_mapM f xs) as [o2 [ys'|e]]; [|discriminate].
  simpl. rewrite app_nil_r. intros [= <- <-].
  now exists o1, y, o2, ys'.
Qed.

Lemma gen_mapM_first_Err {A B} (f : A -> Gen B) (before after : list A)
    (bad : A) (out1 out2 : list string) (ys : list B) (e : exn) :
  gen_mapM f before = (out1, Ok ys) ->
  f bad = (out2, Err e) ->
  gen_mapM f (before ++ bad :: after) = ((out1 ++ out2)%list, Err e).
Proof.
  revert out1 ys. induction before as [|x xs IH]; intros out1 ys Hb Hbad.
  - injection Hb as <- <-. simpl. now rewrite Hbad.
  - apply gen_mapM_cons_Ok in Hb as (o1 & y & o2 & ys' & Hx & Hxs & -> & ->).
    simpl. rewrite Hx, (IH _ _ Hxs Hbad). simpl.
    now rewrite app_assoc.
Qed.

Lemma gen_mapM_Ok_iff {A B} (f : A -> Gen B) (xs : list A) :
  (exists ys, snd (gen_mapM f xs) = Ok ys)
  <-> Forall (fun x => exists y, snd (f x) = Ok y) xs.
Proof.
  split.
  - intros [ys H]. revert ys H. induction xs as [|x xs IH]; intros ys H;
      [constructor|].
    destruct (gen_mapM f (x :: xs)) as [out r] eqn:E. simpl in H. subst r.
    apply gen_mapM_cons_Ok in E as (o1 & y & o2 & ys' & Hx & Hxs & _ & _).
    constructor.
    + exists y. now rewrite Hx.
    + apply (IH ys'). now rewrite Hxs.
  - induction 1 as [|x xs [y Hy] _ [ys Hys]]; [now exists []|].
    exists (y :: ys). simpl. unfold gbind, gret.
    destruct (f x) as [o1 r1]. simpl in Hy. subst r1.
    destruct (gen_mapM f xs) as [o2 r2]. simpl in Hys. subst r2.
    reflexivity.
Qed.

Lemma to_code_objects_inv (self : ApiScheme) (out : list string) (text : string) :
  to_code_objects self = (out, Ok text) ->
  exists texts,
    gen_mapM to_code (objects self) = (out, Ok texts)
    /\ text = join (nl ++ nl) texts.
Proof.
  unfold to_code_objects, gbind, gret.
  destruct (gen_mapM to_code (objects self)) as [o [texts|e]]; [|discriminate].
  rewrite app_nil_r. intros [= <- <-]. now exists texts.
Qed.

Lemma gen_mapM_to_code_stdout (objs : list ApiObject) :
  forall out texts,
    gen_mapM to_code objs = (out, Ok texts) ->
    out = map diagnostic (skipped objs)
    /\ List.length texts = List.length objs.
Proof.
  induction objs as [|o rest IH]; intros out texts H.
  - injection H as <- <-. split; reflexivity.
  - apply gen_mapM_cons_Ok in H as (o1 & y & o2 & ys' & Ho & Hrest & -> & ->).
    destruct (IH _ _ Hrest) as [-> Hlen].
    pose proof (to_code_stdout o) as Hout. rewrite Ho in Hout. simpl in Hout.
    subst o1. unfold skipped. simpl.
    split; [|now rewrite Hlen].
    now destruct (emission_kind (o_type o)).
Qed.

(** X18: when the model block is generated, the standard output holds the
    diagnostics of the objects of unrecognized kind, one line each, in the
    order of the scheme, and nothing else. *)
Theorem model_block_diagnostics
    (self : ApiScheme) (out : list string) (text : string) :
  to_code_objects self = (out, Ok text) ->
  out = map diagnostic (skipped (objects self)).
Proof.
  intros H. apply to_code_objects_inv in H as (texts & H & _).
  exact (proj1 (gen_mapM_to_code_stdout _ H)).
Qed.

Lemma model_block_diagnostics_witness :
  fst (to_code_objects
         (mkApiScheme
            [ mkApiObject "Counter" "A counter" T_integer
                "https://core.telegram.org/bots/api/#counter" None None;
              ChatId ] []))
  = ["Counter can not be parsed!"].
Proof.
  exact (@model_block_diagnostics
           (mkApiScheme
              [ mkApiObject "Counter" "A counter" T_integer
                  "https://core.telegram.org/bots/api/#counter" None None;
                ChatId ] [])
           _ _ eq_refl).
Defined.

(** X19: generation of the model block stops at the first object that
    raises: the exception is that object's, the standard output holds the
    diagnostics printed before it, and the objects after it are not looked
    at. *)
Theorem model_block_stops_at_first_failure
    (before after : list ApiObject) (bad : ApiObject) (ms : list ApiMethod)
    (out : list string) (texts : list string) (e : exn) :
  gen_mapM to_code before = (out, Ok texts) ->
  snd (to_code bad) = Err e ->
  to_code_objects (mkApiScheme (before ++ bad :: after) ms) = (out, Err e).
Proof.
  intros Hb Hbad.
  assert (Hcode : to_code bad = ([], Err e)).
  { pose proof (to_code_stdout bad) as Ho.
    rewrite (to_code_Err_emission_kind _ Hbad) in Ho.
    destruct (to_code bad) as [o r]. simpl in *. now subst. }
  unfold to_code_objects. cbn [objects].
  rewrite (gen_mapM_first_Err to_code _ after _ Hb Hcode).
  simpl. now rewrite app_nil_r.
Qed.

Lemma model_block_stops_at_first_failure_witness :
  to_code_objects
    (mkApiScheme
       [ ChatId;
         mkApiObject "Empty" "No property" T_properties
           "https://core.telegram.org/bots/api/#empty" None None;
         mkApiObject "Counter" "A counter" T_integer
           "https://core.telegram.org/bots/api/#counter" None None ] [])
  = ([], Err (ValueError "can not parse properties")).
Proof.
  exact (@model_block_stops_at_first_failure
           [ChatId]
           [ mkApiObject "Counter" "A counter" T_integer
               "https://core.telegram.org/bots/api/#counter" None None ]
           (mkApiObject "Empty" "No property" T_properties
              "https://core.telegram.org/bots/api/#empty" None None)
           [] [] _ _ eq_refl eq_refl).
Defined.

(** X20: the model block of two lists of objects put one after the other
    is, when both blocks are generated and neither list is empty, the first
    block, a blank line and the second block; the standard output is the
    first output followed by the second.  The methods play no part. *)
Theorem model_block_of_concatenation
    (objs1 objs2 : list ApiObject) (ms1 ms2 ms : list ApiMethod)
    (out1 out2 : list string) (text1 text2 : string) :
  objs1 <> [] -> objs2 <> [] ->
  to_code_objects (mkApiScheme objs1 ms1) = (out1, Ok text1) ->
  to_code_objects (mkApiScheme objs2 ms2) = (out2, Ok text2) ->
  to_code_objects (mkApiScheme (objs1 ++ objs2) ms)
  = ((out1 ++ out2)%list, Ok (text1 ++ nl ++ nl ++ text2)).
Proof.
  intros Hne1 Hne2 H1 H2.
  apply to_code_objects_inv in H1 as (texts1 & H1 & ->).
  apply to_code_objects_inv in H2 as (texts2 & H2 & ->).
  cbn [objects] in H1, H2.
  unfold to_code_objects. cbn [objects].
  rewrite (gen_mapM_app to_code _ _ H1 H2). unfold gbind, gret.
  rewrite app_nil_r. f_equal. f_equal.
  destruct (gen_mapM_to_code_stdout _ H1) as [_ Hl1].
  destruct (gen_mapM_to_code_stdout _ H2) as [_ Hl2].
  rewrite join_app.
  - now rewrite !append_assoc.
  - intros ->. destruct objs1; [now apply Hne1 | discriminate Hl1].
  - intros ->. destruct objs2; [now apply Hne2 | discriminate Hl2].
Qed.

Lemma model_block_of_concatenation_witness :
  to_code_objects (mkApiScheme ([ChatId] ++ [MaybeInaccessibleMessage]) [])
  = (([] ++ [])%list,
     Ok (("ChatId = Union[int, str]" ++ nl ++ tq
          ++ "Identifier or username of the chat" ++ tq)
         ++ nl ++ nl
         ++ ("MaybeInaccessibleMessage = Union["
             ++ dq ++ "Message" ++ dq ++ ", "
             ++ dq ++ "InaccessibleMessage" ++ dq ++ "]" ++ nl
             ++ tq ++ "A message that may be inaccessible" ++ tq))).
Proof.
  apply (@model_block_of_concatenation [ChatId] [MaybeInaccessibleMessage]
           [] [] []).
  - discriminate.
  - discriminate.
  - reflexivity.
  - reflexivity.
Defined.

(** X21: the model block is generated exactly when every object of the
    scheme is renderable. *)
Theorem model_block_returns_iff_all_renderable (self : ApiScheme) :
  (exists text, snd (to_code_objects self) = Ok text)
  <-> forallb renderable (objects self) = true.
Proof.
  rewrite forallb_forall, <- Forall_forall.
  transitivity (exists texts, snd (gen_mapM to_code (objects self)) = Ok texts).
  - unfold to_code_objects, gbind, gret.
    destruct (gen_mapM to_code (objects self)) as [o [texts|e]]; simpl;
      split; intros [x Hx]; try discriminate Hx; eauto.
  - rewrite gen_mapM_Ok_iff. split; apply Forall_impl; intros o;
      apply to_code_Ok_iff.
Qed.

(** X22: the client block is generated exactly when every method of the
    scheme is callable; otherwise generation stops at the first method that
    raises, with that method's exception, which is the [KeyError] of type
    resolution.  The objects play no part. *)
Theorem client_block_outcome (self : ApiScheme) :
  ((exists text, to_code_methods self = Ok text)
   <-> forallb callable (methods self) = true)
  /\ (forall before bad after objs texts e,
         mapM to_function before = Ok texts ->
         to_function bad = Err e ->
         to_code_methods (mkApiScheme objs (before ++ bad :: after)) = Err e)
  /\ (forall e, to_code_methods self = Err e ->
                exists kind, In kind raising_kinds /\ e = KeyError kind).
Proof.
  split; [|split].
  - rewrite forallb_forall, <- Forall_forall.
    transitivity (exists texts, mapM to_function (methods self) = Ok texts).
    + unfold to_code_methods.
      destruct (mapM to_function (methods self)) as [texts|e]; simpl;
        split; intros [x Hx]; try discriminate Hx; eauto.
    + rewrite mapM_Ok_iff. split; apply Forall_impl; intros m;
        apply to_function_Ok_iff.
  - intros before bad after objs texts e Hb Hbad.
    unfold to_code_methods. cbn [methods].
    assert (H : mapM to_function (before ++ bad :: after) = Err e).
    { revert texts Hb. induction before as [|m ms IH]; intros texts Hb.
      - simpl. now rewrite Hbad.
      - apply mapM_cons_Ok in Hb as (y & ys & Hm & Hms & _).
        simpl. rewrite Hm. now rewrite (IH _ Hms). }
    now rewrite H.
  - intros e H. unfold to_code_methods in H.
    destruct (mapM to_function (methods self)) as [texts|e'] eqn:E;
      [discriminate H|].
    injection H as <-. apply mapM_Err_In in E as (m & _ & Hm).
    exact (to_function_Err_kind _ Hm).
Qed.

(** ** Collisions of sanitized names *)

Lemma append_underscore_injective (s t : string) :
  s ++ "_" = t ++ "_" -> s = t.
Proof.
  intros H. apply (f_equal drop_last) in H.
  now rewrite !drop_last_append in H.
Qed.

(** X23: two raw names get the same sanitized name exactly when they are
    equal or one of them is reserved and the other is its suffixed form: a
    record that has both [type] and [type_] gets the field [type_] twice. *)
Theorem validate_name_collisions (a b : string) :
  validate_name a = validate_name b
  <-> a = b
      \/ (reserved a = true /\ b = a ++ "_")
      \/ (reserved b = true /\ a = b ++ "_").
Proof.
  split.
  - intros H.
    destruct (reserved a) eqn:Ha, (reserved b) eqn:Hb.
    + rewrite (validate_name_reserved _ Ha), (validate_name_reserved _ Hb) in H.
      left. now apply append_underscore_injective.
    + rewrite (validate_name_reserved _ Ha), (validate_name_not_reserved _ Hb)
        in H.
      right. left. auto.
    + rewrite (validate_name_not_reserved _ Ha), (validate_name_reserved _ Hb)
        in H.
      right. right. auto.
    + rewrite (validate_name_not_reserved _ Ha), (validate_name_not_reserved _ Hb)
        in H.
      now left.
  - intros [-> | [[Ha ->] | [Hb ->]]]; [reflexivity| |].
    + rewrite (validate_name_reserved _ Ha).
      destruct (validate_name_cases a) as [[-> | [-> | ->]] | [Hr _]];
        try reflexivity.
      rewrite Hr in Ha. discriminate Ha.
    + rewrite (validate_name_reserved _ Hb).
      destruct (validate_name_cases b) as [[-> | [-> | ->]] | [Hr _]];
        try reflexivity.
      rewrite Hr in Hb. discriminate Hb.
Qed.

(** * The emitted text *)

Lemma mapM_In {A B} (f : A -> result B) (xs : list A) (ys : list B) (x : A) :
  mapM f xs = Ok ys -> In x xs -> exists y, f x = Ok y /\ In y ys.
Proof.
  revert ys. induction xs as [|a xs IH]; intros ys H Hin; [contradiction|].
  apply mapM_cons_Ok in H as (y & ys' & Ha & Hxs & ->).
  destruct Hin as [-> | Hin].
  - exists y. simpl. auto.
  - destruct (IH _ Hxs Hin) as (y' & Hy' & Hin'). exists y'. simpl. auto.
Qed.

Lemma in_with_marker (h : string) (req opt : list string) :
  In h req \/ In h opt -> In h (with_marker req opt).
Proof.
  unfold with_marker. intros [H | H].
  - destruct opt; [exact H|]. apply in_or_app. now left.
  - destruct opt as [|o opt']; [contradiction|].
    apply in_or_app. right. now right.
Qed.

(** the parameter of an argument is among the parameters of the method *)
Lemma parameter_in_with_marker (arguments : list ApiProperty)
    (req opt : list string) (el : ApiProperty) :
  mapM (ApiProperty_to_typehint false) (filter p_required arguments) = Ok req ->
  mapM (ApiProperty_to_typehint false)
       (filter (fun el => negb (p_required el)) arguments) = Ok opt ->
  In el arguments ->
  exists hint,
    ApiProperty_to_typehint false el = Ok hint
    /\ In hint (with_marker req opt).
Proof.
  intros Hreq Hopt Hin. destruct (p_required el) eqn:E.
  - destruct (@mapM_In _ _ _ _ _ el Hreq) as (h & Hh & Hinh).
    { apply filter_In. auto. }
    exists h. split; [exact Hh|]. apply in_with_marker. now left.
  - destruct (@mapM_In _ _ _ _ _ el Hopt) as (h & Hh & Hinh).
    { apply filter_In. split; [exact Hin|]. now rewrite E. }
    exists h. split; [exact Hh|]. apply in_with_marker. now right.
Qed.

(** what a text returned by [to_function] is made of *)
Lemma to_function_inv (m : ApiMethod) (text : string) :
  to_function m = Ok text ->
  exists req opt return_typehint doc_args,
    mapM (ApiProperty_to_typehint false) (filter p_required (m_arguments m))
      = Ok req
    /\ mapM (ApiProperty_to_typehint false)
            (filter (fun el => negb (p_required el)) (m_arguments m))
       = Ok opt
    /\ ApiTypeInfo_to_typehint false (m_return_type m) = Ok return_typehint
    /\ mapM to_doc_line (m_arguments m) = Ok doc_args
    /\ text
       = function_text
           (snake_case_name (m_name m))
           (m_description m)
           (m_name m)
           ("{" ++ join ("," ++ nl ++ "                ")
                        (map json_param (m_arguments m)) ++ "}")
           (match with_marker req opt with
            | [] => EmptyString
            | _ :: _ => ", "
            end)
           (join ", " (with_marker req opt))
           return_typehint
           (join (nl ++ "            ") doc_args).
Proof.
  intros H. unfold to_function in H.
  destruct (to_function_loop (m_arguments m) no_lists) as [lists|e] eqn:Hl;
    [|discriminate H].
  cbn [rbind] in H.
  destruct (ApiTypeInfo_to_typehint false (m_return_type m)) as [r|e] eqn:Hr;
    [|discriminate H].
  cbn [rbind] in H.
  destruct (mapM to_doc_line (m_arguments m)) as [docs|e] eqn:Hd;
    [|discriminate H].
  cbn [rbind] in H. injection H as <-.
  destruct (to_function_loop_inv _ Hl) as (Hreq & Hopt & Hjson).
  exists (args lists), (args_opt lists), r, docs.
  split; [exact Hreq|]. split; [exact Hopt|]. split; [reflexivity|].
  split; [reflexivity|].
  now rewrite Hjson, final_args_with_marker.
Qed.

(** ** Wire keys in the emitted method *)

(** C4: an argument whose raw name is a key of the reserved-word table is
    stored under the suffixed name.  The entry that the Method Emitter puts in
    the payload mapping has the raw name as its key and the suffixed name as
    its value; the rendered parameter and the documentation line start with
    the suffixed name.  In the text that the Method Emitter returns for any
    method that has the argument, the mapping after [json=] is the join of
    the entries of the arguments, this entry among them, and the parameter
    list holds the parameter with the suffixed name. *)
Theorem reserved_argument_keeps_wire_name
    (raw description : string) (required : bool) (type_info : ApiTypeInfo) :
  reserved raw = true ->
  let el := parse_ApiProperty raw description required type_info in
  p_name el = raw ++ "_"
  /\ p_name el <> raw
  /\ wire_key el = raw
  /\ json_param el = dq ++ raw ++ dq ++ ": " ++ raw ++ "_"
  /\ (forall ref_str hint,
        ApiTypeInfo_to_typehint ref_str type_info = Ok hint ->
        exists tail,
          ApiProperty_to_typehint ref_str el = Ok ((raw ++ "_") ++ ": " ++ tail))
  /\ (forall m lists,
        In el (m_arguments m) ->
        to_function_loop (m_arguments m) no_lists = Ok lists ->
        In (dq ++ raw ++ dq ++ ": " ++ raw ++ "_") (json_params lists))
  /\ (forall m text,
        In el (m_arguments m) ->
        to_function m = Ok text ->
        exists req opt return_typehint doc_args,
          mapM (ApiProperty_to_typehint false)
               (filter p_required (m_arguments m)) = Ok req
          /\ mapM (ApiProperty_to_typehint false)
                  (filter (fun el => negb (p_required el)) (m_arguments m))
             = Ok opt
          /\ ApiTypeInfo_to_typehint false (m_return_type m)
             = Ok return_typehint
          /\ mapM to_doc_line (m_arguments m) = Ok doc_args
          /\ In (dq ++ raw ++ dq ++ ": " ++ raw ++ "_")
                (map json_param (m_arguments m))
          /\ (exists tail,
                In ((raw ++ "_") ++ ": " ++ tail) (with_marker req opt))
          /\ (exists tail, In ((raw ++ "_") ++ " (" ++ tail) doc_args)
          /\ text
             = "async def " ++ snake_case_name (m_name m) ++ "(self" ++ (match with_marker req opt with
                   | [] => EmptyString
                   | _ :: _ => ", "
                   end) ++ join ", " (with_marker req opt)
               ++ ") -> " ++ return_typehint ++ ":" ++ nl
               ++ "        " ++ tq ++ m_description m ++ nl
               ++ nl
               ++ "        Args:" ++ nl
               ++ "            " ++ join (nl ++ "            ") doc_args ++ nl
               ++ "        " ++ tq ++ nl
               ++ "        response_api: " ++ return_typehint ++ " = await self.exec_request(" ++ nl
               ++ "            " ++ dq ++ m_name m ++ dq ++ "," ++ nl
               ++ "            json=" ++ ("{" ++ join ("," ++ nl ++ "                ")
                             (map json_param (m_arguments m)) ++ "}") ++ "," ++ nl
               ++ "            return_type=" ++ return_typehint ++ " # type: ignore" ++ nl
               ++ nl
               ++ "        )" ++ nl
               ++ "        return response_api" ++ nl).
Proof.
  intros Hr el.
  assert (Hname : p_name el = raw ++ "_") by (apply validate_name_reserved, Hr).
  assert (Hkey : wire_key el = raw).
  { unfold wire_key. rewrite Hname, endswith_underscore_append.
    apply drop_last_append. }
  assert (Hjson : json_param el = dq ++ raw ++ dq ++ ": " ++ raw ++ "_").
  { unfold json_param. now rewrite Hkey, Hname. }
  assert (Hparam : forall ref_str hint,
            ApiProperty_to_typehint ref_str el = Ok hint ->
            exists tail, hint = (raw ++ "_") ++ ": " ++ tail).
  { intros ref_str hint. unfold ApiProperty_to_typehint. rewrite Hname.
    destruct (negb (p_required el));
      (destruct (ApiTypeInfo_to_typehint ref_str (p_type_info el));
       [|discriminate]); simpl; intros [= <-]; eexists; reflexivity. }
  repeat split; trivial.
  - rewrite Hname. apply append_underscore_differs.
  - intros ref_str hint Hhint. unfold ApiProperty_to_typehint.
    fold el. rewrite Hname. change (p_type_info el) with type_info.
    rewrite Hhint. simpl rbind.
    destruct (negb (p_required el)); eexists; reflexivity.
  - intros m lists Hin Hloop.
    apply to_function_loop_json in Hloop. rewrite Hloop, <- Hjson. simpl.
    now apply in_map.
  - intros m text Hin Htext.
    destruct (@to_function_inv m text Htext)
      as (req & opt & r & docs & Hreq & Hopt & Hret & Hdocs & ->).
    exists req, opt, r, docs.
    split; [exact Hreq|]. split; [exact Hopt|]. split; [exact Hret|].
    split; [exact Hdocs|]. split; [|split; [|split]].
    + rewrite <- Hjson. now apply in_map.
    + destruct (@parameter_in_with_marker _ _ _ el Hreq Hopt Hin) as (h & Hh & Hinh).
      destruct (Hparam _ _ Hh) as [tail ->]. now exists tail.
    + destruct (@mapM_In _ _ _ _ _ el Hdocs Hin) as (doc & Hdoc & Hindoc).
      unfold to_doc_line in Hdoc. rewrite Hname in Hdoc.
      destruct (ApiTypeInfo_to_typehint true (p_type_info el));
        [|discriminate Hdoc].
      simpl in Hdoc. injection Hdoc as <-. eexists. exact Hindoc.
    + reflexivity.
Qed.

Lemma reserved_argument_keeps_wire_name_witness :
  reserved "type" = true
  /\ to_function sendDice
     = Ok ("async def " ++ "send_dice" ++ "(self" ++ ", " ++ "type_: str"
         ++ ") -> " ++ "bool" ++ ":" ++ nl
         ++ "        " ++ tq ++ "Send a dice" ++ nl
         ++ nl
         ++ "        Args:" ++ nl
         ++ "            " ++ "type_ (str): Type of the dice" ++ nl
         ++ "        " ++ tq ++ nl
         ++ "        response_api: " ++ "bool" ++ " = await self.exec_request(" ++ nl
         ++ "            " ++ dq ++ "sendDice" ++ dq ++ "," ++ nl
         ++ "            json=" ++ ("{" ++ dq ++ "type" ++ dq ++ ": type_" ++ "}") ++ "," ++ nl
         ++ "            return_type=" ++ "bool" ++ " # type: ignore" ++ nl
         ++ nl
         ++ "        )" ++ nl
         ++ "        return response_api" ++ nl)
  /\ In (dq ++ "type" ++ dq ++ ": type_") (map json_param (m_arguments sendDice)).
Proof.
  split; [reflexivity|]. split; [reflexivity|].
  destruct (proj2 (proj2 (proj2 (proj2 (proj2 (proj2
              (reserved_argument_keeps_wire_name "type" "Type of the dice"
                 true (primitive T_string) eq_refl))))))
              sendDice _ (or_introl eq_refl) eq_refl)
    as (req & opt & r & docs & _ & _ & _ & _ & Hin & _).
  exact Hin.
Defined.

(** C10: an argument whose raw name ends with an underscore and is not a key
    of the reserved-word table keeps its name, and still loses the underscore
    in its payload key: the key is the raw name without its last character,
    which is not the raw name.  In the text that the Method Emitter returns
    for any method that has the argument, the mapping after [json=] is the
    join of the entries of the arguments, the entry with the shortened key
    among them. *)
Theorem underscore_suffix_is_stripped_unsanitized
    (raw description : string) (required : bool) (type_info : ApiTypeInfo) :
  endswith_underscore raw = true ->
  reserved raw = false ->
  let el := parse_ApiProperty raw description required type_info in
  p_name el = raw
  /\ wire_key el = drop_last raw
  /\ wire_key el <> raw
  /\ json_param el = dq ++ drop_last raw ++ dq ++ ": " ++ raw
  /\ (forall m lists,
        In el (m_arguments m) ->
        to_function_loop (m_arguments m) no_lists = Ok lists ->
        In (dq ++ drop_last raw ++ dq ++ ": " ++ raw) (json_params lists))
  /\ (forall m text,
        In el (m_arguments m) ->
        to_function m = Ok text ->
        exists req opt return_typehint doc_args,
          mapM (ApiProperty_to_typehint false)
               (filter p_required (m_arguments m)) = Ok req
          /\ mapM (ApiProperty_to_typehint false)
                  (filter (fun el => negb (p_required el)) (m_arguments m))
             = Ok opt
          /\ ApiTypeInfo_to_typehint false (m_return_type m)
             = Ok return_typehint
          /\ mapM to_doc_line (m_arguments m) = Ok doc_args
          /\ In (dq ++ drop_last raw ++ dq ++ ": " ++ raw)
                (map json_param (m_arguments m))
          /\ (exists tail, In (raw ++ ": " ++ tail) (with_marker req opt))
          /\ text
             = "async def " ++ snake_case_name (m_name m) ++ "(self" ++ (match with_marker req opt with
                   | [] => EmptyString
                   | _ :: _ => ", "
                   end) ++ join ", " (with_marker req opt)
               ++ ") -> " ++ return_typehint ++ ":" ++ nl
               ++ "        " ++ tq ++ m_description m ++ nl
               ++ nl
               ++ "        Args:" ++ nl
               ++ "            " ++ join (nl ++ "            ") doc_args ++ nl
               ++ "        " ++ tq ++ nl
               ++ "        response_api: " ++ return_typehint ++ " = await self.exec_request(" ++ nl
               ++ "            " ++ dq ++ m_name m ++ dq ++ "," ++ nl
               ++ "            json=" ++ ("{" ++ join ("," ++ nl ++ "                ")
                             (map json_param (m_arguments m)) ++ "}") ++ "," ++ nl
               ++ "            return_type=" ++ return_typehint ++ " # type: ignore" ++ nl
               ++ nl
               ++ "        )" ++ nl
               ++ "        return response_api" ++ nl).
Proof.
  intros Hends Hr el.
  assert (Hname : p_name el = raw) by (apply validate_name_not_reserved, Hr).
  assert (Hkey : wire_key el = drop_last raw).
  { unfold wire_key. now rewrite Hname, Hends. }
  assert (Hjson : json_param el = dq ++ drop_last raw ++ dq ++ ": " ++ raw).
  { unfold json_param. now rewrite Hkey, Hname. }
  assert (Hparam : forall hint,
            ApiProperty_to_typehint false el = Ok hint ->
            exists tail, hint = raw ++ ": " ++ tail).
  { intros hint. unfold ApiProperty_to_typehint. rewrite Hname.
    destruct (negb (p_required el));
      (destruct (ApiTypeInfo_to_typehint false (p_type_info el));
       [|discriminate]); simpl; intros [= <-]; eexists; reflexivity. }
  repeat split; trivial.
  - rewrite Hkey. apply drop_last_shorter.
    now apply endswith_underscore_nonempty.
  - intros m lists Hin Hloop.
    apply to_function_loop_json in Hloop. rewrite Hloop, <- Hjson. simpl.
    now apply in_map.
  - intros m text Hin Htext.
    destruct (@to_function_inv m text Htext)
      as (req & opt & r & docs & Hreq & Hopt & Hret & Hdocs & ->).
    exists req, opt, r, docs.
    split; [exact Hreq|]. split; [exact Hopt|]. split; [exact Hret|].
    split; [exact Hdocs|]. split; [|split].
    + rewrite <- Hjson. now apply in_map.
    + destruct (@parameter_in_with_marker _ _ _ el Hreq Hopt Hin)
        as (h & Hh & Hinh).
      destruct (Hparam _ Hh) as [tail ->]. now exists tail.
    + reflexivity.
Qed.

Lemma underscore_suffix_is_stripped_unsanitized_witness :
  endswith_underscore "user_" = true
  /\ reserved "user_" = false
  /\ to_function banUser
     = Ok ("async def " ++ "ban_user" ++ "(self" ++ ", " ++ "user_: int"
         ++ ") -> " ++ "bool" ++ ":" ++ nl
         ++ "        " ++ tq ++ "Ban a user" ++ nl
         ++ nl
         ++ "        Args:" ++ nl
         ++ "            " ++ "user_ (int): The user" ++ nl
         ++ "        " ++ tq ++ nl
         ++ "        response_api: " ++ "bool" ++ " = await self.exec_request(" ++ nl
         ++ "            " ++ dq ++ "banUser" ++ dq ++ "," ++ nl
         ++ "            json=" ++ ("{" ++ dq ++ "user" ++ dq ++ ": user_" ++ "}") ++ "," ++ nl
         ++ "            return_type=" ++ "bool" ++ " # type: ignore" ++ nl
         ++ nl
         ++ "        )" ++ nl
         ++ "        return response_api" ++ nl)
  /\ In (dq ++ "user" ++ dq ++ ": user_") (map json_param (m_arguments banUser)).
Proof.
  split; [reflexivity|]. split; [reflexivity|]. split; [reflexivity|].
  destruct (proj2 (proj2 (proj2 (proj2 (proj2
              (underscore_suffix_is_stripped_unsanitized "user_" "The user"
                 true (primitive T_integer) eq_refl eq_refl)))))
              banUser _ (or_introl eq_refl) eq_refl)
    as (req & opt & r & docs & _ & _ & _ & _ & Hin & _).
  exact Hin.
Defined.

(** ** Objects that are skipped *)

(** C6: an object whose kind is none of [properties], [any_of], [unknown]
    makes [to_code] print the diagnostic with its name and return the empty
    text without raising.  In a scheme whose other objects are rendered, the
    model block is the join of their texts in order, with the empty text at
    the place of the object, and the standard output has the diagnostic at
    that place; the client block is the one of the scheme without the
    object, and, when the methods are rendered, it is the wrapper class
    followed by the texts of all the methods in order. *)
Theorem unrecognized_object_is_skipped (self : ApiObject) :
  emission_kind (o_type self) = false ->
  to_code self = ([diagnostic self], Ok EmptyString)
  /\ (forall before after ms out1 out2 texts1 texts2,
        gen_mapM to_code before = (out1, Ok texts1) ->
        gen_mapM to_code after = (out2, Ok texts2) ->
        to_code_objects (mkApiScheme (before ++ self :: after) ms)
        = ((out1 ++ diagnostic self :: out2)%list,
           Ok (join (nl ++ nl) (texts1 ++ EmptyString :: texts2)%list)))
  /\ (forall before after ms,
        to_code_methods (mkApiScheme (before ++ self :: after) ms)
        = to_code_methods (mkApiScheme (before ++ after) ms))
  /\ (forall before after ms texts,
        Forall2 (fun m text => to_function m = Ok text) ms texts ->
        to_code_methods (mkApiScheme (before ++ self :: after) ms)
        = Ok ("class ApiWrapper:" ++ nl
            ++ "    def __init__(self, token: str, *, api_url: str = "
            ++ dq ++ "https://api.telegram.org/" ++ dq ++ "):" ++ nl
            ++ "        self.token = token" ++ nl
            ++ "        self.api_url = api_url" ++ nl
            ++ "        self.client = AsyncClient(" ++ nl
            ++ "            base_url=api_url + " ++ dq ++ "bot" ++ dq ++ " + token + '/'" ++ nl
            ++ "        )" ++ nl
            ++ nl
            ++ "    async def exec_request(" ++ nl
            ++ "            self," ++ nl
            ++ "            method: str," ++ nl
            ++ "            json: Dict," ++ nl
            ++ "            return_type: Type[T]" ++ nl
            ++ "    ) -> T:" ++ nl
            ++ "        result = await self.client.post(" ++ nl
            ++ "            method," ++ nl
            ++ "            json=json" ++ nl
            ++ "        )" ++ nl
            ++ "        mdl = ApiResponse[return_type]# type: ignore" ++ nl
            ++ "        response = mdl.model_validate(result.json())" ++ nl
            ++ "        return response.result" ++ nl
            ++ nl
            ++ "    " ++ join (nl ++ nl ++ "    ") texts ++ nl)).
Proof.
  intros Hkind.
  assert (Hcode : to_code self = ([diagnostic self], Ok EmptyString)).
  { unfold to_code. destruct (o_type self); try discriminate; reflexivity. }
  split; [exact Hcode|]. split; [|split].
  - intros before after ms out1 out2 texts1 texts2 Hb Ha.
    assert (Hrest : gen_mapM to_code (self :: after)
                    = ((diagnostic self :: out2)%list,
                       Ok (EmptyString :: texts2)%list)).
    { simpl. rewrite Hcode, Ha. unfold gbind, gret. simpl.
      now rewrite app_nil_r. }
    unfold to_code_objects. cbn [objects].
    rewrite (gen_mapM_app to_code _ _ Hb Hrest). simpl.
    now rewrite app_nil_r.
  - intros before after ms. reflexivity.
  - intros before after ms texts Htexts.
    apply mapM_Forall2 in Htexts.
    unfold to_code_methods. cbn [methods]. rewrite Htexts. reflexivity.
Qed.

Lemma unrecognized_object_is_skipped_witness :
  emission_kind T_integer = false
  /\ to_code Counter = (["Counter can not be parsed!"], Ok EmptyString)
  /\ to_code_objects (mkApiScheme [Counter; ChatId] [sendDice])
     = (["Counter can not be parsed!"],
        Ok (EmptyString ++ nl ++ nl ++ "ChatId = Union[int, str]" ++ nl ++ tq ++ "Identifier or username of the chat" ++ tq))
  /\ to_code_methods (mkApiScheme [Counter; ChatId] [sendDice])
     = Ok ("class ApiWrapper:" ++ nl
         ++ "    def __init__(self, token: str, *, api_url: str = "
         ++ dq ++ "https://api.telegram.org/" ++ dq ++ "):" ++ nl
         ++ "        self.token = token" ++ nl
         ++ "        self.api_url = api_url" ++ nl
         ++ "        self.client = AsyncClient(" ++ nl
         ++ "            base_url=api_url + " ++ dq ++ "bot" ++ dq ++ " + token + '/'" ++ nl
         ++ "        )" ++ nl
         ++ nl
         ++ "    async def exec_request(" ++ nl
         ++ "            self," ++ nl
         ++ "            method: str," ++ nl
         ++ "            json: Dict," ++ nl
         ++ "            return_type: Type[T]" ++ nl
         ++ "    ) -> T:" ++ nl
         ++ "        result = await self.client.post(" ++ nl
         ++ "            method," ++ nl
         ++ "            json=json" ++ nl
         ++ "        )" ++ nl
         ++ "        mdl = ApiResponse[return_type]# type: ignore" ++ nl
         ++ "        response = mdl.model_validate(result.json())" ++ nl
         ++ "        return response.result" ++ nl
         ++ nl
         ++ "    " ++ ("async def " ++ "send_dice" ++ "(self" ++ ", " ++ "type_: str"
                  ++ ") -> " ++ "bool" ++ ":" ++ nl
                  ++ "        " ++ tq ++ "Send a dice" ++ nl
                  ++ nl
                  ++ "        Args:" ++ nl
                  ++ "            " ++ "type_ (str): Type of the dice" ++ nl
                  ++ "        " ++ tq ++ nl
                  ++ "        response_api: " ++ "bool" ++ " = await self.exec_request(" ++ nl
                  ++ "            " ++ dq ++ "sendDice" ++ dq ++ "," ++ nl
                  ++ "            json=" ++ ("{" ++ dq ++ "type" ++ dq ++ ": type_" ++ "}") ++ "," ++ nl
                  ++ "            return_type=" ++ "bool" ++ " # type: ignore" ++ nl
                  ++ nl
                  ++ "        )" ++ nl
                  ++ "        return response_api" ++ nl) ++ nl).
Proof.
  split; [reflexivity|]. split; [|split].
  - exact (proj1 (unrecognized_object_is_skipped Counter eq_refl)).
  - reflexivity.
  - reflexivity.
Defined.

(** ** The callable identifier and the method [sendMessage] *)

(** C7: the callable identifier of a method is its name with an underscore
    before every capital letter but a leading one, in lower case;
    [sendMessage] gives [send_message].  For the method [sendMessage] with
    the required arguments [chat_id] (integer) and [text] (string) and the
    optional argument [reply_to_message_id] (integer), the emitted text is
    the declaration of [send_message] with the parameters
    [self, chat_id: int, text: str, *, reply_to_message_id: Optional[int] = None]
    and the payload mapping of the three entries keyed by the original names,
    in the order of the arguments. *)
Theorem snake_case_name_and_sendMessage :
  (forall name, snake_case_name name = snake_of_words name)
  /\ snake_case_name "sendMessage" = "send_message"
  /\ (forall description d1 d2 d3 maybe_multipart return_type,
        let m := parse_ApiMethod "sendMessage" description
                   (sendMessage_arguments d1 d2 d3) maybe_multipart
                   return_type in
        map wire_key (m_arguments m)
          = ["chat_id"; "text"; "reply_to_message_id"]
        /\ to_function_loop (m_arguments m) no_lists
           = Ok {| args := ["chat_id: int"; "text: str"];
                   args_opt := ["reply_to_message_id: Optional[int] = None"];
                   json_params :=
                     [ dq ++ "chat_id" ++ dq ++ ": chat_id";
                       dq ++ "text" ++ dq ++ ": text";
                       dq ++ "reply_to_message_id" ++ dq
                         ++ ": reply_to_message_id" ] |}
        /\ to_function m
           = (return_typehint <- ApiTypeInfo_to_typehint false return_type ;;
              Ok ("async def " ++ "send_message" ++ "(self" ++ ", " ++ "chat_id: int, text: str, *, reply_to_message_id: Optional[int] = None"
                  ++ ") -> " ++ return_typehint ++ ":" ++ nl
                  ++ "        " ++ tq ++ validate_description description ++ nl
                  ++ nl
                  ++ "        Args:" ++ nl
                  ++ "            " ++ "chat_id (int): " ++ validate_description d1 ++ nl
                  ++ "            text (str): " ++ validate_description d2 ++ nl
                  ++ "            reply_to_message_id (int): " ++ validate_description d3 ++ nl
                  ++ "        " ++ tq ++ nl
                  ++ "        response_api: " ++ return_typehint ++ " = await self.exec_request(" ++ nl
                  ++ "            " ++ dq ++ "sendMessage" ++ dq ++ "," ++ nl
                  ++ "            json=" ++ ("{" ++ dq ++ "chat_id" ++ dq ++ ": chat_id," ++ nl
                       ++ "                " ++ dq ++ "text" ++ dq ++ ": text," ++ nl
                       ++ "                " ++ dq ++ "reply_to_message_id" ++ dq
                       ++ ": reply_to_message_id}") ++ "," ++ nl
                  ++ "            return_type=" ++ return_typehint ++ " # type: ignore" ++ nl
                  ++ nl
                  ++ "        )" ++ nl
                  ++ "        return response_api" ++ nl))).
Proof.
  split; [|split; [reflexivity|]].
  - intros [|c rest]; [reflexivity|].
    unfold snake_case_name, snake_of_words. simpl.
    now rewrite re_sub_from_interior by discriminate.
  - intros description d1 d2 d3 maybe_multipart return_type m.
    split; [reflexivity|]. split; [reflexivity|].
    subst m. unfold to_function, parse_ApiMethod.
    cbn [m_arguments m_return_type m_name m_description].
    assert (Hloop : to_function_loop (sendMessage_arguments d1 d2 d3) no_lists
              = Ok {| args := ["chat_id: int"; "text: str"];
                      args_opt := ["reply_to_message_id: Optional[int] = None"];
                      json_params :=
                        [ dq ++ "chat_id" ++ dq ++ ": chat_id";
                          dq ++ "text" ++ dq ++ ": text";
                          dq ++ "reply_to_message_id" ++ dq
                            ++ ": reply_to_message_id" ] |})
      by reflexivity.
    assert (Hdocs : mapM to_doc_line (sendMessage_arguments d1 d2 d3)
              = Ok [ "chat_id (int): " ++ validate_description d1;
                     "text (str): " ++ validate_description d2;
                     "reply_to_message_id (int): "
                       ++ validate_description d3 ])
      by reflexivity.
    rewrite Hloop, Hdocs. cbn [rbind].
    destruct (ApiTypeInfo_to_typehint false return_type) as [r|e];
      [|reflexivity].
    cbn [rbind]. f_equal. unfold function_text, cat.
    generalize (validate_description d1) as v1.
    generalize (validate_description d2) as v2.
    generalize (validate_description d3) as v3.
    generalize (validate_description description) as v.
    intros v v3 v2 v1. simpl. repeat (rewrite append_assoc; simpl).
    reflexivity.
Qed.

(** ** The order of parameters and properties in the emitted text *)

(** C1, as amended.  Method Emitter: for a method none of whose required
    arguments carries a default, the emitted declaration has, after [self],
    the rendered required arguments in their original order, then, when there
    is an optional argument, the marker [*] and the rendered optional
    arguments in their original order.  Object Emitter: the emitted
    declaration of a record lists the rendered properties, each followed by
    its documentation line, in their original order, required or not. *)
Theorem required_first_in_methods_original_order_in_records :
  (forall (m : ApiMethod) (req opt : list string),
      Forall (fun el => p_required el = true ->
                        truthy (ti_default (p_type_info el)) = false)
             (m_arguments m) ->
      mapM (ApiProperty_to_typehint false)
           (filter required_no_default (m_arguments m)) = Ok req ->
      mapM (ApiProperty_to_typehint false)
           (filter (fun el => negb (required_no_default el)) (m_arguments m))
        = Ok opt ->
      (exists lists,
          to_function_loop (m_arguments m) no_lists = Ok lists
          /\ args lists = req
          /\ args_opt lists = opt
          /\ final_args lists = with_marker req opt)
      /\ to_function m
         = (return_typehint <- ApiTypeInfo_to_typehint false (m_return_type m) ;;
            doc_args <- mapM to_doc_line (m_arguments m) ;;
            Ok ("async def " ++ snake_case_name (m_name m) ++ "(self" ++ (match with_marker req opt with
                    | [] => EmptyString
                    | _ :: _ => ", "
                    end) ++ join ", " (with_marker req opt)
                ++ ") -> " ++ return_typehint ++ ":" ++ nl
                ++ "        " ++ tq ++ m_description m ++ nl
                ++ nl
                ++ "        Args:" ++ nl
                ++ "            " ++ join (nl ++ "            ") doc_args ++ nl
                ++ "        " ++ tq ++ nl
                ++ "        response_api: " ++ return_typehint ++ " = await self.exec_request(" ++ nl
                ++ "            " ++ dq ++ m_name m ++ dq ++ "," ++ nl
                ++ "            json=" ++ ("{" ++ join ("," ++ nl ++ "                ")
                              (map json_param (m_arguments m)) ++ "}") ++ "," ++ nl
                ++ "            return_type=" ++ return_typehint ++ " # type: ignore" ++ nl
                ++ nl
                ++ "        )" ++ nl
                ++ "        return response_api" ++ nl)))
  /\ (forall (self : ApiObject) (props : list ApiProperty)
             (blocks : list string),
        o_type self = T_properties ->
        o_properties self = Some props ->
        props <> [] ->
        Forall2 (fun el block =>
                   exists hint doc,
                     ApiProperty_to_typehint true el = Ok hint
                     /\ to_doc_line el = Ok doc
                     /\ block = hint ++ nl ++ "    " ++ tq ++ doc ++ tq)
                props blocks ->
        to_code self
        = ([], Ok ("class " ++ o_name self ++ "(BaseModel):" ++ nl
                   ++ "    " ++ tq ++ o_description self ++ nl
                   ++ nl
                   ++ "    " ++ o_documentation_link self ++ nl
                   ++ "    " ++ tq ++ nl
                   ++ "    model_config = ConfigDict(" ++ nl
                   ++ "        populate_by_name=True," ++ nl
                   ++ "        alias_generator=lambda x: x[:-1] if x in reserved_python else x," ++ nl
                   ++ "    )" ++ nl
                   ++ "    " ++ join (nl ++ "    ") blocks ++ " " ++ nl
                   ++ "    " ++ nl))).
Proof.
  split.
  - intros m req opt Hdefaults Hreq Hopt.
    destruct (filter_required_no_default Hdefaults) as [E1 E2].
    rewrite E1 in Hreq. rewrite E2 in Hopt.
    pose proof (to_function_loop_groups (m_arguments m) no_lists Hreq Hopt)
      as Hloop.
    change (args no_lists) with (@nil string) in Hloop.
    change (args_opt no_lists) with (@nil string) in Hloop.
    change (json_params no_lists) with (@nil string) in Hloop.
    cbn [app] in Hloop.
    split.
    + eexists. split; [exact Hloop|]. cbn [args args_opt].
      split; [reflexivity|]. split; [reflexivity|].
      apply final_args_with_marker.
    + unfold to_function. rewrite Hloop. cbn [rbind json_params].
      rewrite final_args_with_marker. cbn [args args_opt].
      destruct (ApiTypeInfo_to_typehint false (m_return_type m)) as [r|e];
        [|reflexivity].
      cbn [rbind].
      destruct (mapM to_doc_line (m_arguments m)) as [docs|e];
        [|reflexivity].
      reflexivity.
  - intros self props blocks Hkind Hprops Hne Hblocks.
    assert (Hb : mapM property_block props = Ok blocks).
    { apply mapM_Forall2.
      refine (Forall2_impl _ _ Hblocks).
      intros el block (hint & doc & Hh & Hd & ->).
      unfold property_block. now rewrite Hh, Hd. }
    unfold to_code, to_code_properties. rewrite Hkind, Hprops.
    destruct props as [|p props']; [now contradiction Hne|].
    destruct (@to_code_properties_loop_Ok _ _ Hb
                {| typehints := []; typehints_optional := [];
                   vars_init := []; doc_lines := [] |}) as [lists ->].
    cbn [rbind]. rewrite Hb. reflexivity.
Qed.

Lemma required_first_in_methods_original_order_in_records_witness :
  (exists lists,
      to_function_loop (sendMessage_arguments "Chat" "Text" "Reply") no_lists
      = Ok lists
      /\ args lists = ["chat_id: int"; "text: str"]
      /\ args_opt lists = ["reply_to_message_id: Optional[int] = None"]
      /\ final_args lists
         = ["chat_id: int"; "text: str"; "*";
            "reply_to_message_id: Optional[int] = None"])
  /\ to_code Update
     = ([], Ok ("class " ++ "Update" ++ "(BaseModel):" ++ nl
                ++ "    " ++ tq ++ "An incoming update" ++ nl
                ++ nl
                ++ "    " ++ "https://core.telegram.org/bots/api/#update" ++ nl
                ++ "    " ++ tq ++ nl
                ++ "    model_config = ConfigDict(" ++ nl
                ++ "        populate_by_name=True," ++ nl
                ++ "        alias_generator=lambda x: x[:-1] if x in reserved_python else x," ++ nl
                ++ "    )" ++ nl
                ++ "    " ++ ("message: Optional[" ++ dq ++ "Message" ++ dq ++ "] = None" ++ nl ++ "    " ++ tq ++ "message (" ++ dq ++ "Message" ++ dq ++ "): New incoming message" ++ tq)
                          ++ nl ++ "    "
                          ++ ("update_id: int" ++ nl ++ "    " ++ tq ++ "update_id (int): The unique identifier of the update" ++ tq) ++ " " ++ nl
                ++ "    " ++ nl)).
Proof.
  split.
  - apply (proj1 required_first_in_methods_original_order_in_records
             (parse_ApiMethod "sendMessage" "Send a text message"
                (sendMessage_arguments "Chat" "Text" "Reply") false
                (reference_to "Message"))
             ["chat_id: int"; "text: str"]
             ["reply_to_message_id: Optional[int] = None"]).
    + repeat constructor; discriminate.
    + reflexivity.
    + reflexivity.
  - apply (proj2 required_first_in_methods_original_order_in_records
             Update Update_properties
             [ "message: Optional[" ++ dq ++ "Message" ++ dq ++ "] = None" ++ nl ++ "    " ++ tq ++ "message (" ++ dq ++ "Message" ++ dq ++ "): New incoming message" ++ tq;
               "update_id: int" ++ nl ++ "    " ++ tq ++ "update_id (int): The unique identifier of the update" ++ tq ]).
    + reflexivity.
    + reflexivity.
    + discriminate.
    + repeat (constructor;
              [do 2 eexists; split; [reflexivity | split; reflexivity] |]).
      constructor.
Defined.

(** C1, as stated, fails for the Object Emitter: in the emitted declaration
    of the record [Update] the optional property [message] comes before the
    required property [update_id], as in the schema; the partition rule would
    put [update_id] first. *)
Lemma record_properties_not_partitioned :
  required_first Update_properties
  = [ parse_ApiProperty "update_id" "The unique identifier of the update" true
        (primitive T_integer);
      parse_ApiProperty "message" "New incoming message" false
        (reference_to "Message") ]
  /\ mapM property_block Update_properties
     = Ok [ "message: Optional[" ++ dq ++ "Message" ++ dq ++ "] = None" ++ nl ++ "    " ++ tq ++ "message (" ++ dq ++ "Message" ++ dq ++ "): New incoming message" ++ tq;
            "update_id: int" ++ nl ++ "    " ++ tq ++ "update_id (int): The unique identifier of the update" ++ tq ]
  /\ to_code Update
     = ([], rbind (mapM property_block Update_properties) (fun blocks =>
              Ok (class_text "Update" "An incoming update"
                    "https://core.telegram.org/bots/api/#update"
                    (join (nl ++ "    ") blocks))))
  /\ to_code Update
     = ([], Ok ("class " ++ "Update" ++ "(BaseModel):" ++ nl
                ++ "    " ++ tq ++ "An incoming update" ++ nl
                ++ nl
                ++ "    " ++ "https://core.telegram.org/bots/api/#update" ++ nl
                ++ "    " ++ tq ++ nl
                ++ "    model_config = ConfigDict(" ++ nl
                ++ "        populate_by_name=True," ++ nl
                ++ "        alias_generator=lambda x: x[:-1] if x in reserved_python else x," ++ nl
                ++ "    )" ++ nl
                ++ "    " ++ ("message: Optional[" ++ dq ++ "Message" ++ dq ++ "] = None" ++ nl ++ "    " ++ tq ++ "message (" ++ dq ++ "Message" ++ dq ++ "): New incoming message" ++ tq)
                          ++ nl ++ "    "
                          ++ ("update_id: int" ++ nl ++ "    " ++ tq ++ "update_id (int): The unique identifier of the update" ++ tq) ++ " " ++ nl
                ++ "    " ++ nl))
  /\ partitioned_class_text Update Update_properties
     = Ok ("class " ++ "Update" ++ "(BaseModel):" ++ nl
           ++ "    " ++ tq ++ "An incoming update" ++ nl
           ++ nl
           ++ "    " ++ "https://core.telegram.org/bots/api/#update" ++ nl
           ++ "    " ++ tq ++ nl
           ++ "    model_config = ConfigDict(" ++ nl
           ++ "        populate_by_name=True," ++ nl
           ++ "        alias_generator=lambda x: x[:-1] if x in reserved_python else x," ++ nl
           ++ "    )" ++ nl
           ++ "    " ++ ("update_id: int" ++ nl ++ "    " ++ tq ++ "update_id (int): The unique identifier of the update" ++ tq)
                     ++ nl ++ "    "
                     ++ ("message: Optional[" ++ dq ++ "Message" ++ dq ++ "] = None" ++ nl ++ "    " ++ tq ++ "message (" ++ dq ++ "Message" ++ dq ++ "): New incoming message" ++ tq) ++ " " ++ nl
           ++ "    " ++ nl)
  /\ to_code Update <> ([], partitioned_class_text Update Update_properties).
Proof.
  split; [reflexivity|]. split; [reflexivity|]. split; [reflexivity|].
  split; [reflexivity|]. split; [reflexivity|].
  intros H. vm_compute in H. discriminate H.
Qed.

(** ** The length of a callable identifier *)

(** X6: for a method name made of ASCII characters, the callable identifier
    is longer than the name by the number of capital letters after the first
    character, and a name with no capital letter after its first character is
    only put in lower case. *)
Theorem snake_case_name_length_and_plain_names (name : string) :
  ascii_only name = true ->
  String.length (snake_case_name name)
  = String.length name + count_upper (tail name)
  /\ (has_upper (tail name) = false -> snake_case_name name = lower name).
Proof.
  intros _.
  unfold snake_case_name. rewrite re_sub_from_start, lower_length.
  destruct name as [|c rest]; [split; reflexivity|].
  cbn [tail]. split.
  - simpl. now rewrite underscore_capitals_length.
  - intros H. now rewrite (underscore_capitals_without_upper _ H).
Qed.

Lemma snake_case_name_length_and_plain_names_witness :
  ascii_only "sendMessage" = true
  /\ String.length (snake_case_name "sendMessage")
     = String.length "sendMessage" + 1.
Proof.
  split; [reflexivity|].
  exact (proj1 (snake_case_name_length_and_plain_names "sendMessage" eq_refl)).
Defined.
